(** * latex_cleanup: a shallow embedding of [src/latex_cleanup.py]

    The module rewrites LaTeX text with four passes (three of them driven by
    regular expressions of Python's [re] module, one by [str.replace]) and an
    orchestrator that threads a document through them.

    - Python strings are sequences of Unicode code points: [str := list N].
    - [re] is a backtracking matcher.  It is embedded as a list-of-successes
      interpreter [exec]: the list holds every way the pattern can match at the
      current position, in the order the backtracking engine tries them, so
      the match [re] reports is the head of the list.
    - [Pattern.subn] is the search-and-replace loop of [re]; the replacement
      callback may raise and may update enclosing state ([nonlocal]). *)

From Stdlib Require Import List NArith Bool Ascii String Lia Arith Permutation.
Import ListNotations.

(** ** Strings *)

Abbreviation char := N (only parsing).
Abbreviation str := (list char) (only parsing).

Definition of_string (s : string) : str :=
  map N_of_ascii (list_ascii_of_string s).

(** [Py_UNICODE_ISSPACE]: the predicate behind both [str.strip()] and the
    [\s] class of a [str] pattern. *)
Definition isspace (c : char) : bool :=
  ((0x09 <=? c) && (c <=? 0x0D) || (0x1C <=? c) && (c <=? 0x20)
   || (c =? 0x85) || (c =? 0xA0) || (c =? 0x1680)
   || (0x2000 <=? c) && (c <=? 0x200A)
   || (c =? 0x2028) || (c =? 0x2029) || (c =? 0x202F) || (c =? 0x205F)
   || (c =? 0x3000))%N.

Fixpoint str_eqb (a b : str) : bool :=
  match a, b with
  | [], [] => true
  | x :: a', y :: b' => (x =? y)%N && str_eqb a' b'
  | _, _ => false
  end.

(** [str.lstrip()], [str.rstrip()], [str.strip()] *)
Fixpoint lstrip (s : str) : str :=
  match s with
  | c :: s' => if isspace c then lstrip s' else s
  | [] => []
  end.

Definition rstrip (s : str) : str := rev (lstrip (rev s)).

Definition strip (s : str) : str := rstrip (lstrip s).

(** [s.startswith(p)] *)
Fixpoint startswith (p s : str) : bool :=
  match p, s with
  | [], _ => true
  | x :: p', y :: s' => (x =? y)%N && startswith p' s'
  | _ :: _, [] => false
  end.

(** [p in s] *)
Fixpoint contains (p s : str) : bool :=
  startswith p s
  || match s with
     | [] => false
     | _ :: s' => contains p s'
     end.

(** [s.count(old)] and [s.replace(old, new)] for a non-empty [old]: occurrences
    are taken left to right and do not overlap; [skip] is the number of
    characters of the current occurrence still to be passed over. *)
Fixpoint count_from (old : str) (skip : nat) (s : str) : nat :=
  match s with
  | [] => 0
  | _ :: s' =>
      match skip with
      | S n => count_from old n s'
      | O => if startswith old s
             then S (count_from old (List.length old - 1) s')
             else count_from old 0 s'
      end
  end.

Definition str_count (s old : str) : nat := count_from old 0 s.

Fixpoint replace_from (old new : str) (skip : nat) (s : str) : str :=
  match s with
  | [] => []
  | c :: s' =>
      match skip with
      | S n => replace_from old new n s'
      | O => if startswith old s
             then new ++ replace_from old new (List.length old - 1) s'
             else c :: replace_from old new 0 s'
      end
  end.

Definition str_replace (s old new : str) : str := replace_from old new 0 s.

(** ** Exceptions *)

Inductive exn := AttributeError | IndexError | TypeError.

Inductive result (A : Type) :=
| Ok (a : A)
| Raise (e : exn).

Arguments Ok {A} a.
Arguments Raise {A} e.

Definition bind {A B} (m : result A) (f : A -> result B) : result B :=
  match m with
  | Ok a => f a
  | Raise e => Raise e
  end.

Notation "x <- m ;; k" := (bind m (fun x => k))
  (at level 61, m at next level, right associativity).
Notation "' p <- m ;; k" := (bind m (fun x => let p := x in k))
  (at level 61, p pattern, m at next level, right associativity).

(** ** The regular-expression engine *)

(** Character classes of the patterns: [.] under [re.DOTALL], [\s], [[^c]]. *)
Inductive cls :=
| Dot
| Space
| NotChr (c : char).

Definition cls_mem (k : cls) (c : char) : bool :=
  match k with
  | Dot => true
  | Space => isspace c
  | NotChr x => negb (c =? x)%N
  end.

Inductive gid :=
| Idx (n : nat)
| Name (s : string).

Definition gid_eqb (a b : gid) : bool :=
  match a, b with
  | Idx n, Idx m => Nat.eqb n m
  | Name s, Name t => String.eqb s t
  | _, _ => false
  end.

Inductive regex :=
| Eps
| Chr (c : char)                (* a literal character *)
| Seq (a b : regex)
| MaxRepeat (k : cls)           (* [k*]  : greedy *)
| MinRepeat (k : cls)           (* [k*?] : lazy *)
| Group (g : gid) (r : regex).  (* [(r)] or [(?P<g>r)] *)

Fixpoint lits (s : str) : regex :=
  match s with
  | [] => Eps
  | c :: s' => Seq (Chr c) (lits s')
  end.

Declare Scope re_scope.
Delimit Scope re_scope with re.
Infix ";;;" := Seq (at level 60, right associativity) : re_scope.

Abbreviation captures := (list (gid * str)) (only parsing).

Abbreviation mstate := (captures * str)%type (only parsing).

(** The remainders a repetition can leave, in the order they are tried: the
    greedy one gives the longest run first, the lazy one the shortest. *)
Fixpoint max_rests (p : char -> bool) (s : str) : list str :=
  match s with
  | c :: s' => if p c then max_rests p s' ++ [s] else [s]
  | [] => [[]]
  end.

Fixpoint min_rests (p : char -> bool) (s : str) : list str :=
  match s with
  | c :: s' => s :: (if p c then min_rests p s' else [])
  | [] => [[]]
  end.

(** What was consumed between [s] and its suffix [s']. *)
Definition consumed (s s' : str) : str :=
  firstn (List.length s - List.length s') s.

Fixpoint exec (r : regex) (st : mstate) : list mstate :=
  let '(caps, s) := st in
  match r with
  | Eps => [st]
  | Chr c =>
      match s with
      | x :: s' => if (x =? c)%N then [(caps, s')] else []
      | [] => []
      end
  | Seq a b => flat_map (exec b) (exec a st)
  | MaxRepeat k => map (pair caps) (max_rests (cls_mem k) s)
  | MinRepeat k => map (pair caps) (min_rests (cls_mem k) s)
  | Group g r' =>
      map (fun '(caps', s') => ((g, consumed s s') :: caps', s'))
          (exec r' st)
  end.

Fixpoint groups_of (r : regex) : list gid :=
  match r with
  | Seq a b => groups_of a ++ groups_of b
  | Group g r' => g :: groups_of r'
  | _ => []
  end.

(** A match object: the pattern, the matched text and the captured groups. *)
Record Match := mkMatch {
  m_re : regex;
  m_group0 : str;
  m_caps : captures
}.

Fixpoint lookup (g : gid) (caps : captures) : option str :=
  match caps with
  | [] => None
  | (g', v) :: caps' => if gid_eqb g g' then Some v else lookup g caps'
  end.

(** [match.group(g)]: [IndexError] for a group the pattern does not have,
    [None] for one that took no part in the match. *)
Definition group (m : Match) (g : gid) : result (option str) :=
  if existsb (gid_eqb g) (groups_of (m_re m))
  then Ok (lookup g (m_caps m))
  else Raise IndexError.

(** [pattern.match(s)] at the head of [s], with what follows the match. *)
Definition match_at (r : regex) (s : str) : option (Match * str) :=
  match exec r ([], s) with
  | [] => None
  | (caps, rest) :: _ => Some (mkMatch r (consumed s rest) caps, rest)
  end.

(** [pattern.search(s)]: the leftmost match, with the text before it and the
    text after it. *)
Fixpoint search (r : regex) (s : str) : option (str * Match * str) :=
  match match_at r s with
  | Some (m, rest) => Some ([], m, rest)
  | None =>
      match s with
      | [] => None
      | c :: s' =>
          match search r s' with
          | Some (pre, m, rest) => Some (c :: pre, m, rest)
          | None => None
          end
      end
  end.

(** The loop of [pattern.subn(repl, s)] for a callable [repl].  The callback
    runs once per match, left to right, and threads the state [A] it closes
    over.  The scan resumes after the match; [fuel] bounds the number of
    matches.  (The patterns of this module all begin with a literal, so a
    match is never empty and the loop needs none of [re]'s rules for empty
    matches.) *)
Fixpoint subn_loop {A : Type} (r : regex)
    (repl : A -> Match -> result (str * A))
    (fuel : nat) (st : A) (s : str) : result (str * nat * A) :=
  match fuel with
  | O => Ok (s, 0, st)
  | S fuel' =>
      match search r s with
      | None => Ok (s, 0, st)
      | Some (pre, m, rest) =>
          '(new, st1) <- repl st m ;;
          '(out, n, st2) <- subn_loop r repl fuel' st1 rest ;;
          Ok (pre ++ new ++ out, S n, st2)
      end
  end.

Definition subn_st {A : Type} (r : regex)
    (repl : A -> Match -> result (str * A)) (st : A) (s : str)
  : result (str * nat * A) :=
  subn_loop r repl (List.length s) st s.

(** [pattern.subn(repl, s)] with a callback that keeps no state. *)
Definition subn (r : regex) (repl : Match -> result str) (s : str)
  : result (str * nat) :=
  '(out, n, _) <- subn_st r (fun (_ : unit) m => new <- repl m ;; Ok (new, tt))
                          tt s ;;
  Ok (out, n).

(** Method call [.strip()] on the value of [match.group(..)]. *)
Definition strip_method (v : option str) : result str :=
  match v with
  | Some s => Ok (strip s)
  | None => Raise AttributeError
  end.

(** [f"{v}"] for the value of [match.group(..)]. *)
Definition format (v : option str) : str :=
  match v with
  | Some s => s
  | None => of_string "None"
  end.

(** ** The module *)

Record CleanupStats := mkCleanupStats {
  removed_quote_blocks : nat;
  unicode_replacements : nat;
  simplified_longtables : nat;
  normalized_bibliography_items : nat
}.

Definition QUOTE_BEGIN : str := of_string "\begin{quote}".
Definition QUOTE_END : str := of_string "\end{quote}".
Definition LONGTABLE_BEGIN : str := of_string "\begin{longtable}".
Definition LONGTABLE_END : str := of_string "\end{longtable}".
Definition MINIPAGE_BEGIN : str := of_string "\begin{minipage}".
Definition MINIPAGE_END : str := of_string "\end{minipage}".
Definition ITEM : str := of_string "\item".

Definition lbrace : char := 123%N.
Definition rbrace : char := 125%N.
Definition lbracket : char := 91%N.
Definition rbracket : char := 93%N.
Definition backslash : char := 92%N.

(** r"\\begin\{quote\}\s*(.*?)\s*\\end\{quote\}", re.DOTALL *)
Definition QUOTE_BLOCK_PATTERN : regex :=
  (lits QUOTE_BEGIN ;;; MaxRepeat Space ;;; Group (Idx 1) (MinRepeat Dot) ;;;
   MaxRepeat Space ;;; lits QUOTE_END)%re.

(** re.DOTALL; the pattern reads, piece by piece:
    [\\begin\{longtable\}]  [\{]  [(?P<cols>] [[^}]*] [)]  [\}]
    [(?P<body>.*?)]  [\\end\{longtable\}] *)
Definition LONGTABLE_PATTERN : regex :=
  (lits LONGTABLE_BEGIN ;;; Chr lbrace ;;;
   Group (Name "cols") (MaxRepeat (NotChr rbrace)) ;;; Chr rbrace ;;;
   Group (Name "body") (MinRepeat Dot) ;;; lits LONGTABLE_END)%re.

(** r"\\begin\{minipage\}\[[^\]]*\]\{[^}]*\}(?P<body>.*?)\\end\{minipage\}",
    re.DOTALL *)
Definition MINIPAGE_PATTERN : regex :=
  (lits MINIPAGE_BEGIN ;;; Chr lbracket ;;; MaxRepeat (NotChr rbracket) ;;;
   Chr rbracket ;;; Chr lbrace ;;; MaxRepeat (NotChr rbrace) ;;; Chr rbrace ;;;
   Group (Name "body") (MinRepeat Dot) ;;; lits MINIPAGE_END)%re.

(** r"(?P<item>\\item)\s*\\begin\{quote\}\s*(?P<body>.*?)\s*\\end\{quote\}",
    re.DOTALL *)
Definition BIBITEM_QUOTE_PATTERN : regex :=
  (Group (Name "item") (lits ITEM) ;;; MaxRepeat Space ;;; lits QUOTE_BEGIN ;;;
   MaxRepeat Space ;;; Group (Name "body") (MinRepeat Dot) ;;;
   MaxRepeat Space ;;; lits QUOTE_END)%re.

(** The keys are one code point each; the values are raw strings, so each
    holds the two backslashes it is written with. *)
Definition UNICODE_MATH_REPLACEMENTS : list (str * str) :=
  [ ([0x1AE%N],   of_string "\\tau");
    ([0x1D4B5%N], of_string "\\mathcal{Z}");
    ([0x2124%N],  of_string "\\mathbb{Z}");
    ([0x211D%N],  of_string "\\mathbb{R}");
    ([0x211A%N],  of_string "\\mathbb{Q}");
    ([0x2115%N],  of_string "\\mathbb{N}") ].

Definition remove_quote_blocks (text : str) : result (str * nat) :=
  let replacer (m : Match) : result str :=
    g <- group m (Idx 1) ;; strip_method g in
  subn QUOTE_BLOCK_PATTERN replacer text.

(** One turn of the [for] loop of [normalize_unicode_math], on the pair of
    the variables [text] and [count] it updates. *)
Definition unicode_step (acc : str * nat) (entry : str * str) : str * nat :=
  let '(text, count) := acc in
  let '(char, replacement) := entry in
  if contains char text
  then (str_replace text char replacement, count + str_count text char)
  else (text, count).

Definition normalize_unicode_math (text : str) : result (str * nat) :=
  Ok (fold_left unicode_step UNICODE_MATH_REPLACEMENTS (text, 0)).

Definition _strip_minipages (body : str) : result str :=
  let replacer (m : Match) : result str :=
    g <- group m (Name "body") ;; strip_method g in
  '(stripped, _) <- subn MINIPAGE_PATTERN replacer body ;;
  Ok stripped.

(** The callback of [simplify_longtables]; [simplified] is the counter it
    updates through [nonlocal].  [_strip_minipages(None)] would hand [None]
    to [subn], which raises [TypeError]. *)
Definition longtable_replacer (simplified : nat) (m : Match)
  : result (str * nat) :=
  cols <- group m (Name "cols") ;;
  body <- group m (Name "body") ;;
  new_body <- match body with
              | Some b => _strip_minipages b
              | None => Raise TypeError
              end ;;
  let simplified :=
    if negb (str_eqb new_body (format body))
    then simplified + 1 else simplified in
  Ok (LONGTABLE_BEGIN ++ [lbrace] ++ format cols ++ [rbrace] ++ new_body
        ++ LONGTABLE_END,
      simplified).

Definition simplify_longtables (text : str) : result (str * nat) :=
  '(new_text, _, simplified) <-
     subn_st LONGTABLE_PATTERN longtable_replacer 0 text ;;
  Ok (new_text, simplified).

Definition normalize_bibliography_items (text : str) : result (str * nat) :=
  let replacer (m : Match) : result str :=
    item <- group m (Name "item") ;;
    body <- group m (Name "body") ;;
    stripped <- strip_method body ;;
    Ok (format item ++ of_string " " ++ stripped) in
  subn BIBITEM_QUOTE_PATTERN replacer text.

Definition cleanup_latex (text : str) : result (str * CleanupStats) :=
  '(text, quote_count) <- remove_quote_blocks text ;;
  '(text, unicode_count) <- normalize_unicode_math text ;;
  '(text, simplified_longtable) <- simplify_longtables text ;;
  '(text, bib_count) <- normalize_bibliography_items text ;;
  let stats := mkCleanupStats quote_count unicode_count simplified_longtable
                              bib_count in
  Ok (text, stats).

(** * Auxiliary definitions

    Notions the statements below are written with: a declarative reading of
    the engine, the shapes of documents, and the documents used as examples. *)

(** [sem r c w c']: the pattern [r] can consume exactly [w], turning the
    captures [c] into [c']. *)
Fixpoint sem (r : regex) (c : captures) (w : str) (c' : captures) : Prop :=
  match r with
  | Eps => w = [] /\ c' = c
  | Chr x => w = [x] /\ c' = c
  | Seq a b => exists u v cm, w = u ++ v /\ sem a c u cm /\ sem b cm v c'
  | MaxRepeat k | MinRepeat k => forallb (cls_mem k) w = true /\ c' = c
  | Group g r' => exists c0, sem r' c w c0 /\ c' = (g, w) :: c0
  end.

(** A pattern is consuming when it never matches the empty string. *)
Definition consuming (r : regex) : Prop :=
  forall c w c', sem r c w c' -> w <> [].

(** The callback of [remove_quote_blocks]. *)
Definition quote_replacer (m : Match) : result str :=
  g <- group m (Idx 1) ;; strip_method g.

(** The callback of [_strip_minipages]. *)
Definition minipage_replacer (m : Match) : result str :=
  g <- group m (Name "body") ;; strip_method g.

(** The callback of [normalize_bibliography_items]. *)
Definition bibitem_replacer (m : Match) : result str :=
  item <- group m (Name "item") ;;
  body <- group m (Name "body") ;;
  stripped <- strip_method body ;;
  Ok (format item ++ of_string " " ++ stripped).

(** What the replacement table does to one character. *)
Definition substitute (c : char) : str :=
  match find (fun '(k, _) => str_eqb k [c]) UNICODE_MATH_REPLACEMENTS with
  | Some (_, replacement) => replacement
  | None => [c]
  end.

(** [c] is a key of the replacement table. *)
Definition is_key (c : char) : bool :=
  existsb (fun '(k, _) => str_eqb k [c]) UNICODE_MATH_REPLACEMENTS.

(** What one entry, of key [k] and value [r], does to one character. *)
Definition subst1 (k : char) (r : str) (c : char) : str :=
  if (k =? c)%N then r else [c].

(** The number of occurrences of the character [k] in [s]. *)
Definition occ (k : char) (s : str) : nat := List.length (filter (N.eqb k) s).

(** [unicode_step] for an entry keyed by one character, without the
    guard. *)
Definition char_step (acc : str * nat) (entry : str * str) : str * nat :=
  match fst entry with
  | [k] => (flat_map (subst1 k (snd entry)) (fst acc),
            snd acc + occ k (fst acc))
  | _ => acc
  end.

(** No occurrence of [B] in [s] has an [E] after it. *)
Definition never_closed (B E s : str) : Prop :=
  forall a b, s = a ++ B ++ b -> contains E b = false.

(** [first r st x]: the backtracking engine, started in [st], reaches [x]
    before any other end state of [r]. *)
Definition first (r : regex) (st x : mstate) : Prop :=
  exists l, exec r st = x :: l.

(** A marker is a backslash followed by characters that are neither a
    backslash nor whitespace: it can only begin where it begins. *)
Definition is_marker (M : str) : bool :=
  match M with
  | c :: m =>
      (c =? backslash)%N
      && forallb (fun x => negb (x =? backslash)%N && negb (isspace x)) m
  | [] => false
  end.

(** Some non-empty tail of [a] is a proper beginning of [M]: [a] ends inside
    an occurrence of [M]. *)
Fixpoint ends_partial (M a : str) : bool :=
  match a with
  | [] => false
  | _ :: a' =>
      (startswith a M && (List.length a <? List.length M))
      || ends_partial M a'
  end.

(** A quotation wrapper of content [x]. *)
Definition wrapper (x : str) : str := QUOTE_BEGIN ++ x ++ QUOTE_END.

(** The document [pre1 wrapper(x1) pre2 wrapper(x2) ... tail]. *)
Fixpoint quoted (l : list (str * str)) (tail : str) : str :=
  match l with
  | [] => tail
  | (pre, x) :: l' => pre ++ wrapper x ++ quoted l' tail
  end.

(** The same with every wrapper replaced by its trimmed content. *)
Fixpoint unquoted (l : list (str * str)) (tail : str) : str :=
  match l with
  | [] => tail
  | (pre, x) :: l' => pre ++ strip x ++ unquoted l' tail
  end.

(** What follows the lazy group of the quotation patterns. *)
Definition quote_tail : regex := (MaxRepeat Space ;;; lits QUOTE_END)%re.

(** No piece of the document (text before a wrapper, content of a wrapper,
    text after the last wrapper) contains the marker [M]. *)
Definition pieces_free (M : str) (l : list (str * str)) (tail : str) : Prop :=
  Forall (fun '(pre, x) => contains M pre = false /\ contains M x = false) l
  /\ contains M tail = false.

(** No text before a wrapper and no trimmed content ends inside an occurrence
    of [M]: replacing the wrappers by their contents joins no beginning of
    [M] with its rest. *)
Definition joints_free (M : str) (l : list (str * str)) : Prop :=
  Forall (fun '(pre, x) =>
            ends_partial M pre = false /\ ends_partial M (strip x) = false) l.

(** The document [t1 \item ws1 wrapper(x1) t2 \item ws2 wrapper(x2) ... tail],
    as a document of wrappers. *)
Definition item_units (l : list (str * str * str)) : list (str * str) :=
  map (fun '(t, ws, x) => (t ++ ITEM ++ ws, x)) l.

Definition itemized (l : list (str * str * str)) (tail : str) : str :=
  quoted (item_units l) tail.



(** The begin-markers of the quotation and long-table patterns. *)
Definition begin_markers : list str := [QUOTE_BEGIN; LONGTABLE_BEGIN].

(** A page-fragment wrapper with its two arguments. *)
Definition minipage (pos width content : str) : str :=
  MINIPAGE_BEGIN ++ [lbracket] ++ pos ++ [rbracket] ++ [lbrace] ++ width
    ++ [rbrace] ++ content ++ MINIPAGE_END.

(** [s] does not contain the character [c]. *)
Definition no_char (c : char) (s : str) : bool :=
  forallb (cls_mem (NotChr c)) s.

(** No part of [b] reads [\begin{minipage}[pos]{width}content\end{minipage}]
    with a [pos] free of "]" and a [width] free of "}". *)
Definition no_minipage (b : str) : Prop :=
  forall a pos width content b',
    no_char rbracket pos = true -> no_char rbrace width = true ->
    b <> a ++ minipage pos width content ++ b'.





(** A long table of column specification [cols]. *)
Definition table (cols body : str) : str :=
  LONGTABLE_BEGIN ++ [lbrace] ++ cols ++ [rbrace] ++ body ++ LONGTABLE_END.

(** The body [_strip_minipages] returns (it always returns one). *)
Definition stripped (body : str) : str :=
  match _strip_minipages body with
  | Ok b => b
  | Raise _ => body
  end.






(** The number of positions of [s] at which [p] starts. *)
Fixpoint occurrences (p s : str) : nat :=
  (if startswith p s then 1 else 0)
  + match s with
    | [] => 0
    | _ :: s' => occurrences p s'
    end.

(** [m] holds neither a backslash nor a key of the table. *)
Definition plain (m : str) : bool :=
  forallb (fun x => negb (x =? backslash)%N && negb (is_key x)) m.

Definition keyfree (s : str) : bool := forallb (fun c => negb (is_key c)) s.

(** [subseq a b]: [a] is [b] with some characters left out. *)
Inductive subseq : str -> str -> Prop :=
| subseq_nil : subseq [] []
| subseq_skip (a b : str) (c : char) : subseq a b -> subseq a (c :: b)
| subseq_keep (a b : str) (c : char) : subseq a b -> subseq (c :: a) (c :: b).

(** No part of [s] reads [\begin{quote} ... \end{quote}]. *)
Definition no_quote_block (s : str) : Prop :=
  forall a b c, s <> a ++ QUOTE_BEGIN ++ b ++ QUOTE_END ++ c.

(** No part of [s] reads [\item], whitespace only, [\begin{quote} ...
    \end{quote}]. *)
Definition no_item_quote (s : str) : Prop :=
  forall a w b c,
    forallb isspace w = true ->
    s <> a ++ ITEM ++ w ++ QUOTE_BEGIN ++ b ++ QUOTE_END ++ c.

(** No part of [s] reads [\begin{longtable}{cols} ... \end{longtable}] with
    a [cols] free of "}". *)
Definition no_longtable (s : str) : Prop :=
  forall a cols body c,
    no_char rbrace cols = true -> s <> a ++ table cols body ++ c.






(** ** Documents and notions of the claims *)

(** The input of the worked example. *)
Definition example_input : str :=
  of_string "\begin{quote}Hello " ++ [0x211D%N] ++ of_string "\end{quote}".

(** The pipeline as the specification words it: the four passes in the fixed
    order, each on the previous one's document, the four counts gathered in a
    report. *)
Definition pipeline (text : str) : result (str * CleanupStats) :=
  match remove_quote_blocks text with
  | Raise e => Raise e
  | Ok (d1, quotes) =>
      match normalize_unicode_math d1 with
      | Raise e => Raise e
      | Ok (d2, unicode) =>
          match simplify_longtables d2 with
          | Raise e => Raise e
          | Ok (d3, tables) =>
              match normalize_bibliography_items d3 with
              | Raise e => Raise e
              | Ok (d4, items) =>
                  Ok (d4, mkCleanupStats quotes unicode tables items)
              end
          end
      end
  end.

(** A stray end-marker, then a list item whose quotation is never closed. *)
Definition unclosed_quote : str :=
  of_string "\end{quote} \item \begin{quote} never closed".

(** A complete quotation wrapper, then a list item whose quotation is never
    closed. *)
Definition unclosed_item : str :=
  of_string "\begin{quote}a\end{quote} \item \begin{quote} never closed".

(** A begin-marker without column specification before an end-marker, then
    a long table that is never closed. *)
Definition unclosed_table : str :=
  of_string
    "\begin{longtable} stray \end{longtable} \begin{longtable}{ll} a & b".

(** A long table without page-fragment wrapper. *)
Definition plain_table_example : str :=
  of_string "a \begin{longtable}{ll} x & y \end{longtable} b".

(** One empty wrapper between the two halves of a begin-marker. *)
Definition splice_example : str :=
  of_string "\beg\begin{quote}\end{quote}in{quote}".

(** Two wrappers, with the texts before them. *)
Definition two_quotes : list (str * str) :=
  [ (of_string "Intro \\ ", of_string "
  first quote  ");
    (of_string " and \emph{then} ", of_string "second") ].

(** The text after the two wrappers. *)
Definition two_quotes_tail : str := of_string " the end.".





(** Two bibliography items in quotation wrappers. *)
Definition two_items : list (str * str * str) :=
  [ (of_string "\begin{itemize} ", of_string "
  ", of_string " Knuth, \emph{The TeXbook}. ");
    (of_string "
", [], of_string "Lamport, LaTeX.") ].

(** The text after the two items. *)
Definition two_items_tail : str := of_string "
\end{itemize}".



(** The six keys, once each, and a macro already written out. *)
Definition keys_and_macro : str :=
  [0x1AE; 0x1D4B5; 0x2124; 0x211D; 0x211A; 0x2115]%N
    ++ of_string " and \\mathbb{R}".

(** A sentence with each of the six keys once. *)
Definition six_keys : str :=
  of_string "Let " ++ [0x1AE%N] ++ of_string " act on " ++ [0x1D4B5%N]
    ++ of_string " over " ++ [0x2124; 0x211D; 0x211A; 0x2115]%N.

(** A paragraph with commands and symbols, but no quotation and no table. *)
Definition plain_paragraph : str :=
  of_string "\section{Rings} Let " ++ [0x211D%N] ++ of_string " and "
    ++ [0x2124%N] ++ of_string " be \emph{rings}; \end{quote} is stray.".

(** * Properties *)

(** ** Strings *)

Lemma startswith_iff (p s : str) :
  startswith p s = true <-> exists t, s = p ++ t.
Proof.
  revert s; induction p as [|x p IH]; intros s; simpl.
  - split; [intros _; now exists s | reflexivity].
  - destruct s as [|y s]; simpl.
    + split; [discriminate | intros [t H]; discriminate].
    + rewrite andb_true_iff, N.eqb_eq, IH. split.
      * intros [-> [t ->]]. now exists t.
      * intros [t H]. injection H as -> ->. split; [reflexivity | now exists t].
Qed.

Lemma startswith_app (p t : str) : startswith p (p ++ t) = true.
Proof. apply startswith_iff. now exists t. Qed.

Lemma contains_iff (p s : str) :
  contains p s = true <-> exists a b, s = a ++ p ++ b.
Proof.
  induction s as [|c s IH].
  - simpl. rewrite orb_false_r, startswith_iff. split.
    + intros [t H]. now exists [], t.
    + intros [a [b H]]. destruct a; [now exists b | discriminate].
  - cbn [contains]. rewrite orb_true_iff, startswith_iff, IH. split.
    + intros [[t H] | [a [b H]]].
      * now exists [], t.
      * exists (c :: a), b. now rewrite H.
    + intros [a [b H]]. destruct a as [|x a].
      * left. now exists b.
      * right. injection H as _ H. now exists a, b.
Qed.

Lemma contains_false (p s : str) :
  contains p s = false <-> forall a b, s <> a ++ p ++ b.
Proof.
  rewrite <- not_true_iff_false, contains_iff. split.
  - intros H a b E. apply H. now exists a, b.
  - intros H [a [b E]]. now apply (H a b).
Qed.

Lemma contains_app_l (p a b : str) :
  contains p (a ++ b) = false -> contains p a = false.
Proof.
  rewrite !contains_false. intros H x y E. apply (H x (y ++ b)).
  now rewrite E, <- !app_assoc.
Qed.

Lemma contains_app_r (p a b : str) :
  contains p (a ++ b) = false -> contains p b = false.
Proof.
  rewrite !contains_false. intros H x y E. apply (H (a ++ x) y).
  now rewrite E, <- !app_assoc.
Qed.

Lemma str_eqb_eq (a b : str) : str_eqb a b = true <-> a = b.
Proof.
  revert b; induction a as [|x a IH]; intros [|y b]; simpl;
    try (split; [discriminate | intros H; discriminate]).
  - split; reflexivity.
  - rewrite andb_true_iff, N.eqb_eq, IH. split.
    + now intros [-> ->].
    + intros H. injection H as -> ->. now split.
Qed.

(** ** The engine: a declarative reading of [exec] *)

Lemma consumed_app (w s' : str) : consumed (w ++ s') s' = w.
Proof.
  unfold consumed. rewrite length_app.
  replace (List.length w + List.length s' - List.length s')
    with (List.length w) by lia.
  rewrite firstn_app, firstn_all, Nat.sub_diag. simpl. apply app_nil_r.
Qed.

Lemma max_rests_In (p : char -> bool) (s s' : str) :
  In s' (max_rests p s) <-> exists w, s = w ++ s' /\ forallb p w = true.
Proof.
  induction s as [|c s IH]; simpl.
  - split.
    + intros [<- | []]. now exists [].
    + intros [w [H _]]. symmetry in H. apply app_eq_nil in H. left. now symmetry.
  - destruct (p c) eqn:E.
    + rewrite in_app_iff, IH. simpl. split.
      * intros [[w [-> Hw]] | [<- | []]].
        -- exists (c :: w). simpl. now rewrite E.
        -- now exists [].
      * intros [[|x w] [H Hw]].
        -- right. left. exact H.
        -- left. simpl in H, Hw. injection H as -> ->.
           apply andb_true_iff in Hw. now exists w.
    + simpl. split.
      * intros [<- | []]. now exists [].
      * intros [[|x w] [H Hw]].
        -- now left.
        -- simpl in H, Hw. injection H as -> ->. now rewrite E in Hw.
Qed.

Lemma min_rests_In (p : char -> bool) (s s' : str) :
  In s' (min_rests p s) <-> exists w, s = w ++ s' /\ forallb p w = true.
Proof.
  induction s as [|c s IH]; simpl.
  - split.
    + intros [<- | []]. now exists [].
    + intros [w [H _]]. symmetry in H. apply app_eq_nil in H. left. now symmetry.
  - split.
    + intros [<- | H]; [now exists [] |].
      destruct (p c) eqn:E; [| destruct H].
      apply IH in H as [w [-> Hw]]. exists (c :: w). simpl. now rewrite E.
    + intros [[|x w] [H Hw]]; [now left | right].
      simpl in H, Hw. injection H as -> ->. apply andb_true_iff in Hw as [-> Hw].
      apply IH. now exists w.
Qed.

Lemma exec_sem (r : regex) :
  forall c s c' s',
    In (c', s') (exec r (c, s)) <-> exists w, s = w ++ s' /\ sem r c w c'.
Proof.
  induction r as [|x|a IHa b IHb|k|k|g r IH]; intros c s c' s'; cbn [exec sem].
  - split.
    + intros [H | []]. injection H as -> ->. now exists [].
    + intros [w [-> [-> ->]]]. now left.
  - destruct s as [|y s].
    + split; [intros [] | intros [w [H [-> _]]]; discriminate].
    + destruct (N.eqb_spec y x) as [-> | Hne].
      * split.
        -- intros [H | []]. injection H as -> ->. now exists [x].
        -- intros [w [H [-> ->]]]. injection H as ->. now left.
      * split; [intros [] | intros [w [H [-> _]]]]. injection H as -> _.
        now elim Hne.
  - rewrite in_flat_map. split.
    + intros [[cm sm] [Ha Hb]]. apply IHa in Ha as [u [-> Hu]].
      apply IHb in Hb as [v [-> Hv]]. exists (u ++ v).
      rewrite <- app_assoc. split; [reflexivity | now exists u, v, cm].
    + intros [w [-> [u [v [cm [-> [Hu Hv]]]]]]]. exists (cm, v ++ s'). split.
      * apply IHa. exists u. now rewrite <- app_assoc.
      * apply IHb. now exists v.
  - rewrite in_map_iff. split.
    + intros [x [H Hx]]. injection H as <- <-. apply max_rests_In in Hx.
      destruct Hx as [w [-> Hw]]. now exists w.
    + intros [w [-> [Hw ->]]]. exists s'. split; [reflexivity |].
      apply max_rests_In. now exists w.
  - rewrite in_map_iff. split.
    + intros [x [H Hx]]. injection H as <- <-. apply min_rests_In in Hx.
      destruct Hx as [w [-> Hw]]. now exists w.
    + intros [w [-> [Hw ->]]]. exists s'. split; [reflexivity |].
      apply min_rests_In. now exists w.
  - rewrite in_map_iff. split.
    + intros [[c0 s0] [H Hx]]. injection H as <- <-. apply IH in Hx.
      destruct Hx as [w [-> Hw]]. exists w. split; [reflexivity |].
      exists c0. now rewrite consumed_app.
    + intros [w [-> [c0 [Hw ->]]]]. exists (c0, s'). rewrite consumed_app.
      split; [reflexivity |]. apply IH. now exists w.
Qed.

Lemma sem_lits (l : str) (c : captures) (w : str) (c' : captures) :
  sem (lits l) c w c' <-> w = l /\ c' = c.
Proof.
  revert c w c'; induction l as [|x l IH]; intros c w c'; simpl.
  - tauto.
  - split.
    + intros [u [v [cm [-> [[-> ->] H]]]]]. apply IH in H as [-> ->]. now split.
    + intros [-> ->]. exists [x], l, c. repeat split. now apply IH.
Qed.

(** ** Matches of the four patterns *)

Lemma forallb_Dot (w : str) : forallb (cls_mem Dot) w = true.
Proof. induction w; simpl; auto. Qed.

Ltac seq_intro u v c := exists u, v, c; split; [reflexivity | split].
Ltac grp_intro c := exists c; split; [| reflexivity].
Ltac rep_intro := split; [first [assumption | apply forallb_Dot] | reflexivity].
Ltac chr_intro := split; reflexivity.
Ltac lits_intro := apply sem_lits; split; reflexivity.

Lemma quote_sem (c : captures) (w : str) (c' : captures) :
  sem QUOTE_BLOCK_PATTERN c w c' <->
  exists w1 x w2,
    w = QUOTE_BEGIN ++ w1 ++ x ++ w2 ++ QUOTE_END
    /\ forallb isspace w1 = true /\ forallb isspace w2 = true
    /\ c' = (Idx 1, x) :: c.
Proof.
  unfold QUOTE_BLOCK_PATTERN. cbn [sem]. split.
  - intros (u1 & v1 & c1 & -> & H1 & u2 & v2 & c2 & -> & [H2 ->]
            & u3 & v3 & c3 & -> & (c0 & [_ ->] & ->)
            & u4 & v4 & c4 & -> & [H4 ->] & H5).
    apply sem_lits in H1 as [-> ->]. apply sem_lits in H5 as [-> ->].
    now exists u2, u3, u4.
  - intros (w1 & x & w2 & -> & H1 & H2 & ->).
    seq_intro QUOTE_BEGIN (w1 ++ x ++ w2 ++ QUOTE_END) c; [lits_intro |].
    seq_intro w1 (x ++ w2 ++ QUOTE_END) c; [rep_intro |].
    seq_intro x (w2 ++ QUOTE_END) ((Idx 1, x) :: c); [grp_intro c; rep_intro |].
    seq_intro w2 QUOTE_END ((Idx 1, x) :: c); [rep_intro | lits_intro].
Qed.

Lemma bibitem_sem (c : captures) (w : str) (c' : captures) :
  sem BIBITEM_QUOTE_PATTERN c w c' <->
  exists w0 w1 x w2,
    w = ITEM ++ w0 ++ QUOTE_BEGIN ++ w1 ++ x ++ w2 ++ QUOTE_END
    /\ forallb isspace w0 = true /\ forallb isspace w1 = true
    /\ forallb isspace w2 = true
    /\ c' = (Name "body", x) :: (Name "item", ITEM) :: c.
Proof.
  unfold BIBITEM_QUOTE_PATTERN. cbn [sem]. split.
  - intros (u0 & v0 & c0 & -> & (ci & Hi & ->)
            & u1 & v1 & c1 & -> & [H1 ->]
            & u2 & v2 & c2 & -> & H2
            & u3 & v3 & c3 & -> & [H3 ->]
            & u4 & v4 & c4 & -> & (cb & [_ ->] & ->)
            & u5 & v5 & c5 & -> & [H5 ->] & H6).
    apply sem_lits in Hi as [-> ->]. apply sem_lits in H2 as [-> ->].
    apply sem_lits in H6 as [-> ->].
    now exists u1, u3, u4, u5.
  - intros (w0 & w1 & x & w2 & -> & H0 & H1 & H2 & ->).
    set (ci := (Name "item", ITEM) :: c).
    seq_intro ITEM (w0 ++ QUOTE_BEGIN ++ w1 ++ x ++ w2 ++ QUOTE_END) ci;
      [grp_intro c; lits_intro |].
    seq_intro w0 (QUOTE_BEGIN ++ w1 ++ x ++ w2 ++ QUOTE_END) ci; [rep_intro |].
    seq_intro QUOTE_BEGIN (w1 ++ x ++ w2 ++ QUOTE_END) ci; [lits_intro |].
    seq_intro w1 (x ++ w2 ++ QUOTE_END) ci; [rep_intro |].
    seq_intro x (w2 ++ QUOTE_END) ((Name "body", x) :: ci);
      [grp_intro ci; rep_intro |].
    seq_intro w2 QUOTE_END ((Name "body", x) :: ci); [rep_intro | lits_intro].
Qed.

Lemma longtable_sem (c : captures) (w : str) (c' : captures) :
  sem LONGTABLE_PATTERN c w c' <->
  exists cols body,
    w = LONGTABLE_BEGIN ++ [lbrace] ++ cols ++ [rbrace] ++ body
          ++ LONGTABLE_END
    /\ forallb (cls_mem (NotChr rbrace)) cols = true
    /\ c' = (Name "body", body) :: (Name "cols", cols) :: c.
Proof.
  unfold LONGTABLE_PATTERN. cbn [sem]. split.
  - intros (u0 & v0 & c0 & -> & H0
            & u1 & v1 & c1 & -> & [-> ->]
            & u2 & v2 & c2 & -> & (cc & [Hc ->] & ->)
            & u3 & v3 & c3 & -> & [-> ->]
            & u4 & v4 & c4 & -> & (cb & [_ ->] & ->) & H5).
    apply sem_lits in H0 as [-> ->]. apply sem_lits in H5 as [-> ->].
    now exists u2, u4.
  - intros (cols & body & -> & Hc & ->).
    set (cc := (Name "cols", cols) :: c).
    seq_intro LONGTABLE_BEGIN
      ([lbrace] ++ cols ++ [rbrace] ++ body ++ LONGTABLE_END) c;
      [lits_intro |].
    seq_intro [lbrace] (cols ++ [rbrace] ++ body ++ LONGTABLE_END) c;
      [chr_intro |].
    seq_intro cols ([rbrace] ++ body ++ LONGTABLE_END) cc;
      [grp_intro c; rep_intro |].
    seq_intro [rbrace] (body ++ LONGTABLE_END) cc; [chr_intro |].
    seq_intro body LONGTABLE_END ((Name "body", body) :: cc);
      [grp_intro cc; rep_intro | lits_intro].
Qed.

Lemma minipage_sem (c : captures) (w : str) (c' : captures) :
  sem MINIPAGE_PATTERN c w c' <->
  exists pos width body,
    w = MINIPAGE_BEGIN ++ [lbracket] ++ pos ++ [rbracket] ++ [lbrace]
          ++ width ++ [rbrace] ++ body ++ MINIPAGE_END
    /\ forallb (cls_mem (NotChr rbracket)) pos = true
    /\ forallb (cls_mem (NotChr rbrace)) width = true
    /\ c' = (Name "body", body) :: c.
Proof.
  unfold MINIPAGE_PATTERN. cbn [sem]. split.
  - intros (u0 & v0 & c0 & -> & H0
            & u1 & v1 & c1 & -> & [-> ->]
            & u2 & v2 & c2 & -> & [Hp ->]
            & u3 & v3 & c3 & -> & [-> ->]
            & u4 & v4 & c4 & -> & [-> ->]
            & u5 & v5 & c5 & -> & [Hw ->]
            & u6 & v6 & c6 & -> & [-> ->]
            & u7 & v7 & c7 & -> & (cb & [_ ->] & ->) & H8).
    apply sem_lits in H0 as [-> ->]. apply sem_lits in H8 as [-> ->].
    now exists u2, u5, u7.
  - intros (pos & width & body & -> & Hp & Hw & ->).
    seq_intro MINIPAGE_BEGIN
      ([lbracket] ++ pos ++ [rbracket] ++ [lbrace] ++ width ++ [rbrace]
         ++ body ++ MINIPAGE_END) c; [lits_intro |].
    seq_intro [lbracket]
      (pos ++ [rbracket] ++ [lbrace] ++ width ++ [rbrace] ++ body
         ++ MINIPAGE_END) c; [chr_intro |].
    seq_intro pos
      ([rbracket] ++ [lbrace] ++ width ++ [rbrace] ++ body ++ MINIPAGE_END) c;
      [rep_intro |].
    seq_intro [rbracket]
      ([lbrace] ++ width ++ [rbrace] ++ body ++ MINIPAGE_END) c; [chr_intro |].
    seq_intro [lbrace] (width ++ [rbrace] ++ body ++ MINIPAGE_END) c;
      [chr_intro |].
    seq_intro width ([rbrace] ++ body ++ MINIPAGE_END) c; [rep_intro |].
    seq_intro [rbrace] (body ++ MINIPAGE_END) c; [chr_intro |].
    seq_intro body MINIPAGE_END ((Name "body", body) :: c);
      [grp_intro c; rep_intro | lits_intro].
Qed.

(** ** [match], [search] and the [subn] loop *)

Lemma match_at_Some (r : regex) (s : str) (m : Match) (rest : str) :
  match_at r s = Some (m, rest) ->
  exists w c, s = w ++ rest /\ sem r [] w c /\ m = mkMatch r w c.
Proof.
  unfold match_at. destruct (exec r ([], s)) as [|[c s'] l] eqn:E;
    [discriminate |].
  intros H. injection H as <- <-.
  assert (Hin : In (c, s') (exec r ([], s))) by (rewrite E; now left).
  apply exec_sem in Hin as [w [-> Hw]]. exists w, c.
  now rewrite consumed_app.
Qed.

Lemma match_at_None (r : regex) (s : str) :
  match_at r s = None <-> forall w rest c, s = w ++ rest -> ~ sem r [] w c.
Proof.
  unfold match_at. split.
  - destruct (exec r ([], s)) as [|[c s'] l] eqn:E; [| discriminate].
    intros _ w rest c -> Hw.
    assert (Hin : In (c, rest) (exec r ([], w ++ rest)))
      by (apply exec_sem; now exists w).
    now rewrite E in Hin.
  - intros H. destruct (exec r ([], s)) as [|[c s'] l] eqn:E; [reflexivity |].
    assert (Hin : In (c, s') (exec r ([], s))) by (rewrite E; now left).
    apply exec_sem in Hin as [w [-> Hw]]. now elim (H w s' c).
Qed.

Lemma search_Some (r : regex) (s pre : str) (m : Match) (rest : str) :
  search r s = Some (pre, m, rest) ->
  exists w c, s = pre ++ w ++ rest /\ sem r [] w c /\ m = mkMatch r w c.
Proof.
  revert pre; induction s as [|x s IH]; intros pre; cbn [search].
  - destruct (match_at r []) as [[m' rest']|] eqn:E; [| discriminate].
    intros H. injection H as <- <- <-. now apply match_at_Some in E.
  - destruct (match_at r (x :: s)) as [[m' rest']|] eqn:E.
    + intros H. injection H as <- <- <-. now apply match_at_Some in E.
    + destruct (search r s) as [[[pre' m'] rest']|]; [| discriminate].
      intros H. injection H as <- <- <-.
      destruct (IH pre' eq_refl) as (w & c & -> & Hw & ->).
      now exists w, c.
Qed.

Lemma search_None (r : regex) (s : str) :
  search r s = None <->
  forall pre w rest c, s = pre ++ w ++ rest -> ~ sem r [] w c.
Proof.
  induction s as [|x s IH]; cbn [search].
  - destruct (match_at r []) as [[m' rest']|] eqn:E.
    + split; [discriminate |]. intros H.
      apply match_at_Some in E as (w & c & E & Hw & _).
      now elim (H [] w rest' c).
    + split; [| reflexivity]. intros _ pre w rest c E' Hw.
      destruct pre; [| discriminate].
      rewrite match_at_None in E. now apply (E w rest c).
  - destruct (match_at r (x :: s)) as [[m' rest']|] eqn:E.
    + split; [discriminate |]. intros H.
      apply match_at_Some in E as (w & c & E & Hw & _).
      now elim (H [] w rest' c).
    + rewrite match_at_None in E.
      destruct (search r s) as [[[pre' m'] rest']|] eqn:Es.
      * split; [discriminate |]. intros H.
        apply search_Some in Es as (w & c & -> & Hw & _).
        now elim (H (x :: pre') w rest' c).
      * split; [| reflexivity]. intros _ [|y pre] w rest c E' Hw.
        -- now apply (E w rest c).
        -- injection E' as -> ->. destruct IH as [IH _].
           now apply (IH eq_refl pre w rest c).
Qed.

Lemma search_shorter (r : regex) (s pre : str) (m : Match) (rest : str) :
  consuming r -> search r s = Some (pre, m, rest) ->
  List.length rest < List.length s.
Proof.
  intros Hr H. apply search_Some in H as (w & c & -> & Hw & _).
  apply Hr in Hw. rewrite !length_app. destruct w; [easy | simpl; lia].
Qed.

Lemma search_nil (r : regex) : consuming r -> search r [] = None.
Proof.
  intros Hr. destruct (search r []) as [[[pre m] rest]|] eqn:E; [| reflexivity].
  apply search_shorter in E; [simpl in E; lia | assumption].
Qed.

Section Loop.
Context {A : Type} (r : regex) (repl : A -> Match -> result (str * A)).
Hypothesis Hr : consuming r.

(** Fuel beyond the length of the text changes nothing. *)
Lemma subn_loop_fuel (f1 : nat) :
  forall f2 st s,
    List.length s <= f1 -> List.length s <= f2 ->
    subn_loop r repl f1 st s = subn_loop r repl f2 st s.
Proof.
  induction f1 as [|f1 IH]; intros f2 st s H1 H2.
  - destruct s; [| simpl in H1; lia].
    destruct f2; [reflexivity |]. cbn [subn_loop]. now rewrite search_nil.
  - destruct f2 as [|f2].
    + destruct s; [| simpl in H2; lia]. cbn [subn_loop].
      now rewrite search_nil.
    + cbn [subn_loop]. destruct (search r s) as [[[pre m] rest]|] eqn:E;
        [| reflexivity].
      apply search_shorter in E; [| assumption].
      destruct (repl st m) as [[new st1]|e]; [| reflexivity]. cbn [bind].
      rewrite (IH f2 st1 rest); [reflexivity | lia | lia].
Qed.

Lemma subn_st_step (st : A) (s : str) :
  subn_st r repl st s =
  match search r s with
  | None => Ok (s, 0, st)
  | Some (pre, m, rest) =>
      '(new, st1) <- repl st m ;;
      '(out, n, st2) <- subn_st r repl st1 rest ;;
      Ok (pre ++ new ++ out, S n, st2)
  end.
Proof.
  unfold subn_st. destruct (List.length s) as [|n] eqn:En.
  - destruct s; [| discriminate]. cbn [subn_loop]. now rewrite search_nil.
  - cbn [subn_loop]. destruct (search r s) as [[[pre m] rest]|] eqn:E;
      [| reflexivity].
    apply search_shorter in E; [| assumption].
    destruct (repl st m) as [[new st1]|e]; [| reflexivity]. cbn [bind].
    rewrite (subn_loop_fuel n (List.length rest) st1 rest);
      [reflexivity | lia | lia].
Qed.

(** Induction along the matches of the loop. *)
Lemma subn_ind (P : str -> Prop) :
  (forall s, search r s = None -> P s) ->
  (forall s pre m rest,
      search r s = Some (pre, m, rest) -> P rest -> P s) ->
  forall s, P s.
Proof.
  intros Hnone Hsome s.
  remember (List.length s) as n eqn:En. revert s En.
  induction n as [n IH] using lt_wf_ind. intros s ->.
  destruct (search r s) as [[[pre m] rest]|] eqn:E; [| now apply Hnone].
  apply (Hsome s pre m rest E).
  apply (IH (List.length rest)); [| reflexivity].
  now apply (search_shorter r s pre m rest Hr E).
Qed.

(** The loop returns whenever the callback does on the matches it is
    given. *)
Lemma subn_st_total :
  (forall st w c, sem r [] w c -> exists v, repl st (mkMatch r w c) = Ok v) ->
  forall s st, exists v, subn_st r repl st s = Ok v.
Proof.
  intros Hrepl s. induction s as [s E | s pre m rest E IH] using subn_ind;
    intros st; rewrite subn_st_step, E.
  - eauto.
  - apply search_Some in E as (w & c & _ & Hw & ->).
    destruct (Hrepl st w c Hw) as [[new st1] ->]. cbn [bind].
    destruct (IH st1) as [[[out n] st2] ->]. cbn [bind]. eauto.
Qed.
End Loop.

Lemma app_neq_nil_l (a b : str) : a <> [] -> a ++ b <> [].
Proof. destruct a; [easy | discriminate]. Qed.

Lemma quote_consuming : consuming QUOTE_BLOCK_PATTERN.
Proof.
  intros c w c' H. apply quote_sem in H as (w1 & x & w2 & -> & _).
  apply app_neq_nil_l. discriminate.
Qed.

Lemma bibitem_consuming : consuming BIBITEM_QUOTE_PATTERN.
Proof.
  intros c w c' H. apply bibitem_sem in H as (w0 & w1 & x & w2 & -> & _).
  apply app_neq_nil_l. discriminate.
Qed.

Lemma longtable_consuming : consuming LONGTABLE_PATTERN.
Proof.
  intros c w c' H. apply longtable_sem in H as (cols & body & -> & _).
  apply app_neq_nil_l. discriminate.
Qed.

Lemma minipage_consuming : consuming MINIPAGE_PATTERN.
Proof.
  intros c w c' H. apply minipage_sem in H as (pos & width & body & -> & _).
  apply app_neq_nil_l. discriminate.
Qed.

(** The stateless [subn], unfolded by one match. *)
Lemma subn_step (r : regex) (repl : Match -> result str) (s : str) :
  consuming r ->
  subn r repl s =
  match search r s with
  | None => Ok (s, 0)
  | Some (pre, m, rest) =>
      new <- repl m ;;
      '(out, n) <- subn r repl rest ;;
      Ok (pre ++ new ++ out, S n)
  end.
Proof.
  intros Hr. unfold subn. rewrite subn_st_step by assumption.
  destruct (search r s) as [[[pre m] rest]|]; [| reflexivity].
  destruct (repl m) as [new|e]; [| reflexivity]. cbn [bind].
  destruct (subn_st r _ tt rest) as [[[out n] []]|e]; reflexivity.
Qed.

Lemma subn_total (r : regex) (repl : Match -> result str) :
  consuming r ->
  (forall w c, sem r [] w c -> exists v, repl (mkMatch r w c) = Ok v) ->
  forall s, exists out n, subn r repl s = Ok (out, n).
Proof.
  intros Hr Hrepl s. unfold subn.
  destruct (subn_st_total r (fun (_ : unit) m => new <- repl m ;; Ok (new, tt))
              Hr) with (s := s) (st := tt) as [[[out n] st] ->].
  - intros st w c Hw. destruct (Hrepl w c Hw) as [v ->]. cbn [bind]. eauto.
  - cbn [bind]. eauto.
Qed.

(** ** The callbacks on the matches they receive *)

Lemma remove_quote_blocks_eq (text : str) :
  remove_quote_blocks text = subn QUOTE_BLOCK_PATTERN quote_replacer text.
Proof. reflexivity. Qed.

Lemma _strip_minipages_eq (body : str) :
  _strip_minipages body =
  '(stripped, _) <- subn MINIPAGE_PATTERN minipage_replacer body ;; Ok stripped.
Proof. reflexivity. Qed.

Lemma normalize_bibliography_items_eq (text : str) :
  normalize_bibliography_items text =
  subn BIBITEM_QUOTE_PATTERN bibitem_replacer text.
Proof. reflexivity. Qed.

Lemma quote_replacer_match (w : str) (c : captures) :
  sem QUOTE_BLOCK_PATTERN [] w c ->
  exists w1 x w2,
    w = QUOTE_BEGIN ++ w1 ++ x ++ w2 ++ QUOTE_END
    /\ forallb isspace w1 = true /\ forallb isspace w2 = true
    /\ quote_replacer (mkMatch QUOTE_BLOCK_PATTERN w c) = Ok (strip x).
Proof.
  intros H. apply quote_sem in H as (w1 & x & w2 & -> & H1 & H2 & ->).
  exists w1, x, w2. repeat split; assumption.
Qed.

Lemma minipage_replacer_match (w : str) (c : captures) :
  sem MINIPAGE_PATTERN [] w c ->
  exists pos width body,
    w = MINIPAGE_BEGIN ++ [lbracket] ++ pos ++ [rbracket] ++ [lbrace]
          ++ width ++ [rbrace] ++ body ++ MINIPAGE_END
    /\ forallb (cls_mem (NotChr rbracket)) pos = true
    /\ forallb (cls_mem (NotChr rbrace)) width = true
    /\ minipage_replacer (mkMatch MINIPAGE_PATTERN w c) = Ok (strip body).
Proof.
  intros H. apply minipage_sem in H as (pos & width & body & -> & H1 & H2 & ->).
  exists pos, width, body. repeat split; assumption.
Qed.

Lemma bibitem_replacer_match (w : str) (c : captures) :
  sem BIBITEM_QUOTE_PATTERN [] w c ->
  exists w0 w1 x w2,
    w = ITEM ++ w0 ++ QUOTE_BEGIN ++ w1 ++ x ++ w2 ++ QUOTE_END
    /\ forallb isspace w0 = true /\ forallb isspace w1 = true
    /\ forallb isspace w2 = true
    /\ bibitem_replacer (mkMatch BIBITEM_QUOTE_PATTERN w c)
       = Ok (ITEM ++ of_string " " ++ strip x).
Proof.
  intros H. apply bibitem_sem in H as (w0 & w1 & x & w2 & -> & H0 & H1 & H2 & ->).
  exists w0, w1, x, w2. repeat split; assumption.
Qed.

(** ** Every pass returns *)

Lemma remove_quote_blocks_total (text : str) :
  exists out n, remove_quote_blocks text = Ok (out, n).
Proof.
  apply subn_total; [exact quote_consuming |].
  intros w c H. apply quote_replacer_match in H as (w1 & x & w2 & _ & _ & _ & H).
  eauto.
Qed.

Lemma _strip_minipages_total (body : str) :
  exists out, _strip_minipages body = Ok out.
Proof.
  rewrite _strip_minipages_eq.
  destruct (subn_total MINIPAGE_PATTERN minipage_replacer minipage_consuming)
    with (s := body) as (out & n & ->).
  - intros w c H.
    apply minipage_replacer_match in H as (p & wd & b & _ & _ & _ & H). eauto.
  - cbn [bind]. eauto.
Qed.

Lemma longtable_replacer_match (simplified : nat) (w : str) (c : captures) :
  sem LONGTABLE_PATTERN [] w c ->
  exists cols body new_body,
    w = LONGTABLE_BEGIN ++ [lbrace] ++ cols ++ [rbrace] ++ body
          ++ LONGTABLE_END
    /\ forallb (cls_mem (NotChr rbrace)) cols = true
    /\ _strip_minipages body = Ok new_body
    /\ longtable_replacer simplified (mkMatch LONGTABLE_PATTERN w c)
       = Ok (LONGTABLE_BEGIN ++ [lbrace] ++ cols ++ [rbrace] ++ new_body
               ++ LONGTABLE_END,
             if str_eqb new_body body then simplified else simplified + 1).
Proof.
  intros H. apply longtable_sem in H as (cols & body & -> & Hc & ->).
  destruct (_strip_minipages_total body) as [new_body Hn].
  exists cols, body, new_body. repeat split; try assumption.
  unfold longtable_replacer. cbn [group m_re m_caps]. 
  change (existsb (gid_eqb (Name "cols")) (groups_of LONGTABLE_PATTERN))
    with true.
  change (existsb (gid_eqb (Name "body")) (groups_of LONGTABLE_PATTERN))
    with true.
  cbn [bind lookup gid_eqb String.eqb Ascii.eqb Bool.eqb format andb].
  cbn. rewrite Hn. cbn [bind].
  destruct (str_eqb new_body body); reflexivity.
Qed.

Lemma simplify_longtables_total (text : str) :
  exists out n, simplify_longtables text = Ok (out, n).
Proof.
  unfold simplify_longtables.
  destruct (subn_st_total LONGTABLE_PATTERN longtable_replacer
              longtable_consuming) with (s := text) (st := 0)
    as [[[out n] st] ->].
  - intros st w c H.
    apply (longtable_replacer_match st) in H
      as (cols & body & nb & _ & _ & _ & H). eauto.
  - cbn [bind]. eauto.
Qed.

Lemma normalize_bibliography_items_total (text : str) :
  exists out n, normalize_bibliography_items text = Ok (out, n).
Proof.
  apply subn_total; [exact bibitem_consuming |].
  intros w c H.
  apply bibitem_replacer_match in H as (w0 & w1 & x & w2 & _ & _ & _ & _ & H).
  eauto.
Qed.

Lemma normalize_unicode_math_total (text : str) :
  exists out n, normalize_unicode_math text = Ok (out, n).
Proof.
  unfold normalize_unicode_math.
  destruct (fold_left _ UNICODE_MATH_REPLACEMENTS (text, 0)) as [out n].
  eauto.
Qed.

(** ** The unicode pass as a substitution on characters *)

Lemma str_replace_char (s : str) (k : char) (new : str) :
  str_replace s [k] new = flat_map (subst1 k new) s.
Proof.
  unfold str_replace. induction s as [|c s IH]; [reflexivity |].
  cbn [replace_from flat_map startswith].
  unfold subst1 at 1. destruct s; rewrite andb_true_r;
    destruct (k =? c)%N; cbn [List.length Nat.sub]; now rewrite IH.
Qed.

Lemma str_count_char (s : str) (k : char) : str_count s [k] = occ k s.
Proof.
  unfold str_count, occ. induction s as [|c s IH]; [reflexivity |].
  cbn [count_from filter startswith].
  destruct s; rewrite andb_true_r;
    destruct (k =? c)%N; cbn [List.length Nat.sub]; now rewrite IH.
Qed.

Lemma contains_char (s : str) (k : char) : contains [k] s = existsb (N.eqb k) s.
Proof.
  induction s as [|c s IH]; [reflexivity |].
  cbn [contains existsb startswith]. rewrite IH.
  destruct s; now rewrite andb_true_r.
Qed.

Lemma flat_map_subst1_id (k : char) (r : str) (s : str) :
  existsb (N.eqb k) s = false -> flat_map (subst1 k r) s = s.
Proof.
  induction s as [|c s IH]; [reflexivity |]. cbn [existsb flat_map].
  intros H. apply orb_false_iff in H as [Hc Hs]. unfold subst1 at 1.
  rewrite Hc. cbn [app]. now rewrite IH.
Qed.

Lemma occ_zero (k : char) (s : str) :
  existsb (N.eqb k) s = false -> occ k s = 0.
Proof.
  unfold occ. induction s as [|c s IH]; [reflexivity |]. cbn [existsb filter].
  intros H. apply orb_false_iff in H as [Hc Hs]. rewrite Hc. now apply IH.
Qed.

Lemma occ_app (k : char) (a b : str) : occ k (a ++ b) = occ k a + occ k b.
Proof. unfold occ. now rewrite filter_app, length_app. Qed.

Lemma normalize_unicode_math_eq (text : str) :
  normalize_unicode_math text =
  Ok (fold_left unicode_step UNICODE_MATH_REPLACEMENTS (text, 0)).
Proof. reflexivity. Qed.

(** The guard [if char in text] changes nothing. *)
Lemma unicode_step_char (text : str) (count : nat) (k : char) (r : str) :
  unicode_step (text, count) ([k], r)
  = (flat_map (subst1 k r) text, count + occ k text).
Proof.
  unfold unicode_step. rewrite contains_char, str_replace_char, str_count_char.
  destruct (existsb (N.eqb k) text) eqn:E; [reflexivity |].
  now rewrite flat_map_subst1_id, occ_zero, Nat.add_0_r.
Qed.

Lemma unicode_fold_char (text : str) :
  fold_left unicode_step UNICODE_MATH_REPLACEMENTS (text, 0)
  = fold_left char_step UNICODE_MATH_REPLACEMENTS (text, 0).
Proof.
  unfold UNICODE_MATH_REPLACEMENTS. cbn [fold_left].
  now rewrite !unicode_step_char.
Qed.

Lemma char_fold_app (l : list (str * str)) :
  forall a b na nb,
    fold_left char_step l (a ++ b, na + nb)
    = (fst (fold_left char_step l (a, na))
         ++ fst (fold_left char_step l (b, nb)),
       snd (fold_left char_step l (a, na))
         + snd (fold_left char_step l (b, nb))).
Proof.
  induction l as [|[k r] l IH]; intros a b na nb; [reflexivity |].
  cbn [fold_left].
  destruct k as [|k [|k' ks]]; cbn [char_step fst snd]; try apply IH.
  rewrite flat_map_app, occ_app.
  replace (na + nb + (occ k a + occ k b))
    with ((na + occ k a) + (nb + occ k b)) by lia.
  apply IH.
Qed.

Lemma char_fold_one (c : char) :
  fold_left char_step UNICODE_MATH_REPLACEMENTS ([c], 0)
  = (substitute c, if is_key c then 1 else 0).
Proof.
  destruct (N.eqb_spec c 0x1AE) as [-> | H1]; [reflexivity |].
  destruct (N.eqb_spec c 0x1D4B5) as [-> | H2]; [reflexivity |].
  destruct (N.eqb_spec c 0x2124) as [-> | H3]; [reflexivity |].
  destruct (N.eqb_spec c 0x211D) as [-> | H4]; [reflexivity |].
  destruct (N.eqb_spec c 0x211A) as [-> | H5]; [reflexivity |].
  destruct (N.eqb_spec c 0x2115) as [-> | H6]; [reflexivity |].
  apply N.eqb_neq in H1, H2, H3, H4, H5, H6.
  unfold substitute, is_key, UNICODE_MATH_REPLACEMENTS, char_step.
  cbn [fold_left find existsb str_eqb fst snd flat_map subst1 occ filter app
       List.length].
  unfold subst1, occ. cbn [flat_map filter app].
  rewrite !(N.eqb_sym _ c), H1. cbn [flat_map filter app].
  rewrite !(N.eqb_sym _ c), H2. cbn [flat_map filter app].
  rewrite !(N.eqb_sym _ c), H3. cbn [flat_map filter app].
  rewrite !(N.eqb_sym _ c), H4. cbn [flat_map filter app].
  rewrite !(N.eqb_sym _ c), H5. cbn [flat_map filter app].
  rewrite !(N.eqb_sym _ c), H6. reflexivity.
Qed.

Lemma char_fold_all (text : str) :
  fold_left char_step UNICODE_MATH_REPLACEMENTS (text, 0)
  = (flat_map substitute text, List.length (filter is_key text)).
Proof.
  induction text as [|c text IH]; [reflexivity |].
  change (c :: text) with ([c] ++ text) at 1.
  change 0 with (0 + 0) at 1.
  rewrite char_fold_app, IH, char_fold_one. cbn [fst snd flat_map filter].
  destruct (is_key c); reflexivity.
Qed.

Lemma normalize_unicode_math_subst (text : str) :
  normalize_unicode_math text
  = Ok (flat_map substitute text, List.length (filter is_key text)).
Proof.
  now rewrite normalize_unicode_math_eq, unicode_fold_char, char_fold_all.
Qed.

(** ** Keys and replacements of the table *)

Lemma is_key_cases (c : char) :
  is_key c = true ->
  c = 0x1AE%N \/ c = 0x1D4B5%N \/ c = 0x2124%N \/ c = 0x211D%N
  \/ c = 0x211A%N \/ c = 0x2115%N.
Proof.
  unfold is_key, UNICODE_MATH_REPLACEMENTS. cbn [existsb str_eqb].
  rewrite !andb_true_r, orb_false_r, !orb_true_iff, !N.eqb_eq.
  intuition (subst; auto).
Qed.

Lemma substitute_nonkey (c : char) : is_key c = false -> substitute c = [c].
Proof.
  unfold is_key, substitute.
  induction UNICODE_MATH_REPLACEMENTS as [|[k r] l IH]; [reflexivity |].
  cbn [existsb find]. intros H. apply orb_false_iff in H as [-> H]. now apply IH.
Qed.

Lemma substitute_key (c : char) :
  is_key c = true ->
  exists p, substitute c = backslash :: backslash :: p
            /\ forallb (fun x => negb (x =? backslash)%N && negb (is_key x)) p
               = true.
Proof.
  intros H. apply is_key_cases in H.
  destruct H as [-> | [-> | [-> | [-> | [-> | ->]]]]];
    eexists; (split; [reflexivity | reflexivity]).
Qed.

Lemma flat_map_substitute_id (s : str) :
  forallb (fun c => negb (is_key c)) s = true -> flat_map substitute s = s.
Proof.
  induction s as [|c s IH]; [reflexivity |]. cbn [forallb flat_map].
  intros H. apply andb_true_iff in H as [Hc Hs]. apply negb_true_iff in Hc.
  rewrite substitute_nonkey, IH by assumption. reflexivity.
Qed.

Lemma filter_is_key_nil (s : str) :
  List.length (filter is_key s) = 0 ->
  forallb (fun c => negb (is_key c)) s = true.
Proof.
  induction s as [|c s IH]; [reflexivity |]. cbn [filter forallb].
  destruct (is_key c); [discriminate |]. exact IH.
Qed.

(** ** A count of zero leaves the text as it was *)

Lemma subn_zero (r : regex) (repl : Match -> result str) (s out : str) :
  consuming r -> subn r repl s = Ok (out, 0) -> out = s.
Proof.
  intros Hr. rewrite subn_step by assumption.
  destruct (search r s) as [[[pre m] rest]|].
  - destruct (repl m) as [new|e]; [| discriminate]. cbn [bind].
    destruct (subn r repl rest) as [[o n]|e]; discriminate.
  - intros H. now injection H.
Qed.

Lemma subn_search_none (r : regex) (repl : Match -> result str) (s : str) :
  consuming r -> search r s = None -> subn r repl s = Ok (s, 0).
Proof. intros Hr H. now rewrite subn_step, H. Qed.

Lemma longtable_loop_counter (s : str) :
  forall st out n st',
    subn_st LONGTABLE_PATTERN longtable_replacer st s = Ok (out, n, st') ->
    st <= st' /\ (st' = st -> out = s).
Proof.
  induction s as [s E | s pre m rest E IH]
    using (subn_ind LONGTABLE_PATTERN longtable_consuming);
    intros st out n st'; rewrite subn_st_step by exact longtable_consuming;
    rewrite E.
  - intros H. injection H as <- _ <-. split; [lia | reflexivity].
  - apply search_Some in E as (w & c & -> & Hw & ->).
    apply (longtable_replacer_match st) in Hw
      as (cols & body & nb & -> & _ & _ & ->).
    cbn [bind].
    destruct (subn_st LONGTABLE_PATTERN longtable_replacer _ rest)
      as [[[o k] st2]|e] eqn:Er; [| discriminate].
    cbn [bind]. intros H. injection H as <- _ <-.
    apply IH in Er as [Hle Heq].
    destruct (str_eqb nb body) eqn:Eb.
    + apply str_eqb_eq in Eb as ->. split; [assumption |].
      intros H. now rewrite (Heq H).
    + split; [lia | intros H; lia].
Qed.

Lemma simplify_longtables_zero (text out : str) :
  simplify_longtables text = Ok (out, 0) -> out = text.
Proof.
  unfold simplify_longtables.
  destruct (subn_st LONGTABLE_PATTERN longtable_replacer 0 text)
    as [[[o n] st]|e] eqn:E; [| discriminate].
  cbn [bind]. intros H. injection H as <- ->.
  now apply longtable_loop_counter in E as [_ ->].
Qed.

Lemma normalize_unicode_math_zero (text out : str) :
  normalize_unicode_math text = Ok (out, 0) -> out = text.
Proof.
  rewrite normalize_unicode_math_subst. intros H. injection H as <- H.
  apply flat_map_substitute_id. now apply filter_is_key_nil.
Qed.

(** ** Begin-markers that are never closed *)

Lemma search_quote_unterminated (s : str) :
  never_closed QUOTE_BEGIN QUOTE_END s ->
  search QUOTE_BLOCK_PATTERN s = None.
Proof.
  intros H. apply search_None. intros pre w rest c E Hw.
  apply quote_sem in Hw as (w1 & x & w2 & -> & _).
  assert (Hc : contains QUOTE_END (w1 ++ x ++ w2 ++ QUOTE_END ++ rest) = false).
  { apply (H pre). rewrite E. now rewrite <- !app_assoc. }
  apply (proj1 (contains_false _ _) Hc (w1 ++ x ++ w2) rest).
  now rewrite <- !app_assoc.
Qed.

Lemma search_bibitem_unterminated (s : str) :
  never_closed QUOTE_BEGIN QUOTE_END s ->
  search BIBITEM_QUOTE_PATTERN s = None.
Proof.
  intros H. apply search_None. intros pre w rest c E Hw.
  apply bibitem_sem in Hw as (w0 & w1 & x & w2 & -> & _).
  assert (Hc : contains QUOTE_END (w1 ++ x ++ w2 ++ QUOTE_END ++ rest) = false).
  { apply (H (pre ++ ITEM ++ w0)). rewrite E. now rewrite <- !app_assoc. }
  apply (proj1 (contains_false _ _) Hc (w1 ++ x ++ w2) rest).
  now rewrite <- !app_assoc.
Qed.

Lemma search_longtable_unterminated (s : str) :
  never_closed LONGTABLE_BEGIN LONGTABLE_END s ->
  search LONGTABLE_PATTERN s = None.
Proof.
  intros H. apply search_None. intros pre w rest c E Hw.
  apply longtable_sem in Hw as (cols & body & -> & _).
  assert (Hc : contains LONGTABLE_END
                 ([lbrace] ++ cols ++ [rbrace] ++ body ++ LONGTABLE_END ++ rest)
               = false).
  { apply (H pre). rewrite E. now rewrite <- !app_assoc. }
  apply (proj1 (contains_false _ _) Hc ([lbrace] ++ cols ++ [rbrace] ++ body)
           rest).
  now rewrite <- !app_assoc.
Qed.

Lemma simplify_longtables_search_none (s : str) :
  search LONGTABLE_PATTERN s = None -> simplify_longtables s = Ok (s, 0).
Proof.
  intros H. unfold simplify_longtables.
  rewrite subn_st_step by exact longtable_consuming. now rewrite H.
Qed.

(** ** The first way a pattern matches *)

Lemma first_eps (st : mstate) : first Eps st st.
Proof. destruct st. now exists []. Qed.

Lemma first_chr (c : char) (caps : captures) (s : str) :
  first (Chr c) (caps, c :: s) (caps, s).
Proof. exists []. cbn [exec]. now rewrite N.eqb_refl. Qed.

Lemma first_seq (a b : regex) (st mid x : mstate) :
  first a st mid -> first b mid x -> first (Seq a b) st x.
Proof.
  intros [l Ha] [l' Hb]. destruct st as [caps s]. unfold first. cbn [exec].
  rewrite Ha. cbn [flat_map]. rewrite Hb. eexists. reflexivity.
Qed.

Lemma first_lits (l : str) (caps : captures) (s : str) :
  first (lits l) (caps, l ++ s) (caps, s).
Proof.
  induction l as [|c l IH]; cbn [lits app].
  - apply first_eps.
  - eapply first_seq; [apply first_chr | exact IH].
Qed.

Lemma max_rests_first (p : char -> bool) (w t : str) :
  forallb p w = true ->
  match t with [] => True | x :: _ => p x = false end ->
  exists l, max_rests p (w ++ t) = t :: l.
Proof.
  intros Hw Ht. induction w as [|c w IH]; cbn [app max_rests].
  - destruct t as [|x t]; cbn [max_rests]; [now exists [] |].
    rewrite Ht. now exists [].
  - cbn [forallb] in Hw. apply andb_true_iff in Hw as [-> Hw].
    destruct (IH Hw) as [l ->]. eexists. reflexivity.
Qed.

Lemma first_max (k : cls) (caps : captures) (w t : str) :
  forallb (cls_mem k) w = true ->
  match t with [] => True | x :: _ => cls_mem k x = false end ->
  first (MaxRepeat k) (caps, w ++ t) (caps, t).
Proof.
  intros Hw Ht. destruct (max_rests_first (cls_mem k) w t Hw Ht) as [l E].
  exists (map (pair caps) l). cbn [exec]. now rewrite E.
Qed.

Lemma flat_map_map {A B C : Type} (f : B -> list C) (g : A -> B) (l : list A) :
  flat_map f (map g l) = flat_map (fun x => f (g x)) l.
Proof. induction l as [|x l IH]; simpl; [reflexivity | now rewrite IH]. Qed.

(** A lazy [.*?] gives up its shortest run first: the scan stops at the
    first position where what follows succeeds. *)
Lemma lazy_scan (f : str -> list mstate) (y X : str) :
  (forall a b, y = a ++ b -> b <> [] -> f (b ++ X) = []) ->
  exists l, flat_map f (min_rests (cls_mem Dot) (y ++ X)) = f X ++ l.
Proof.
  induction y as [|c y IH]; intros H; cbn [app].
  - destruct X as [|x X]; cbn [min_rests flat_map]; eexists; reflexivity.
  - cbn [min_rests cls_mem flat_map].
    assert (H0 : f (c :: y ++ X) = [])
      by (apply (H [] (c :: y) eq_refl); discriminate).
    rewrite H0. cbn [app].
    apply IH. intros a b -> Hb. apply (H (c :: a) b eq_refl Hb).
Qed.

Lemma first_lazy_group (g : gid) (T : regex) (caps : captures) (y X : str)
      (x : mstate) :
  (forall a b c', y = a ++ b -> b <> [] -> exec T (c', b ++ X) = []) ->
  first T ((g, y) :: caps, X) x ->
  first (Seq (Group g (MinRepeat Dot)) T) (caps, y ++ X) x.
Proof.
  intros Hfail [l Hx]. unfold first. cbn [exec]. rewrite !flat_map_map.
  destruct (lazy_scan
              (fun s' => exec T ((g, consumed (y ++ X) s') :: caps, s')) y X)
    as [l' E].
  - intros a b Hy Hb. now apply Hfail with (a := a).
  - rewrite E, consumed_app, Hx. eexists. reflexivity.
Qed.

Lemma match_at_first (r : regex) (s : str) (caps : captures) (rest : str) :
  first r ([], s) (caps, rest) ->
  match_at r s = Some (mkMatch r (consumed s rest) caps, rest).
Proof. intros [l E]. unfold match_at. now rewrite E. Qed.

Lemma exec_nil (r : regex) (c : captures) (s : str) :
  (forall w s' c', s = w ++ s' -> ~ sem r c w c') -> exec r (c, s) = [].
Proof.
  intros H. destruct (exec r (c, s)) as [|[c' s'] l] eqn:E; [reflexivity |].
  assert (Hin : In (c', s') (exec r (c, s))) by (rewrite E; now left).
  apply exec_sem in Hin as [w [-> Hw]]. now elim (H w s' c').
Qed.

(** Text that no match starts in is copied by [search]. *)
Lemma search_skip (r : regex) (pre s : str) :
  (forall a b, pre = a ++ b -> b <> [] -> match_at r (b ++ s) = None) ->
  search r (pre ++ s) =
  match search r s with
  | Some (p, m, rest) => Some (pre ++ p, m, rest)
  | None => None
  end.
Proof.
  induction pre as [|c pre IH]; intros H; cbn [app].
  - destruct (search r s) as [[[p m] rest]|]; reflexivity.
  - cbn [search].
    assert (H0 : match_at r (c :: pre ++ s) = None)
      by (apply (H [] (c :: pre) eq_refl); discriminate).
    rewrite H0, IH.
    + destruct (search r s) as [[[p m] rest]|]; reflexivity.
    + intros a b -> Hb. apply (H (c :: a) b eq_refl Hb).
Qed.

Lemma search_here (r : regex) (s : str) (m : Match) (rest : str) :
  match_at r s = Some (m, rest) -> search r s = Some ([], m, rest).
Proof. intros H. destruct s; cbn [search]; now rewrite H. Qed.

(** ** Whitespace *)

Lemma lstrip_app_ws (w t : str) :
  forallb isspace w = true -> lstrip (w ++ t) = lstrip t.
Proof.
  induction w as [|c w IH]; [reflexivity |]. cbn [forallb app lstrip].
  intros H. apply andb_true_iff in H as [-> H]. now apply IH.
Qed.

Lemma lstrip_split (s : str) :
  exists w, s = w ++ lstrip s /\ forallb isspace w = true.
Proof.
  induction s as [|c s [w [E Hw]]]; [now exists [] |]. cbn [lstrip].
  destruct (isspace c) eqn:Ec.
  - exists (c :: w). cbn [app forallb]. rewrite Ec, Hw. now rewrite <- E.
  - now exists [].
Qed.

Lemma lstrip_hd (s : str) :
  match lstrip s with [] => True | x :: _ => isspace x = false end.
Proof.
  induction s as [|c s IH]; [exact I |]. cbn [lstrip].
  destruct (isspace c) eqn:Ec; [exact IH | exact Ec].
Qed.

Lemma lstrip_fixed (s : str) :
  match s with [] => True | x :: _ => isspace x = false end -> lstrip s = s.
Proof. destruct s as [|x s]; [reflexivity |]. cbn [lstrip]. now intros ->. Qed.

Lemma lstrip_idem (s : str) : lstrip (lstrip s) = lstrip s.
Proof. apply lstrip_fixed, lstrip_hd. Qed.

Lemma lstrip_app_notall (b t : str) :
  forallb isspace b = false -> lstrip (b ++ t) = lstrip b ++ t /\ lstrip b <> [].
Proof.
  induction b as [|c b IH]; [discriminate |]. cbn [forallb app lstrip].
  destruct (isspace c); [exact IH | intros _; split; [reflexivity | discriminate]].
Qed.

Lemma lstrip_app_nonspace (x t : str) :
  match t with [] => True | c :: _ => isspace c = false end ->
  lstrip (x ++ t) = lstrip x ++ t.
Proof.
  intros Ht. induction x as [|c x IH]; cbn [app lstrip].
  - now apply lstrip_fixed.
  - destruct (isspace c); [exact IH | reflexivity].
Qed.

Lemma forallb_rev {A : Type} (p : A -> bool) (l : list A) :
  forallb p (rev l) = forallb p l.
Proof.
  induction l as [|x l IH]; [reflexivity |]. cbn [rev forallb].
  rewrite forallb_app, IH. cbn [forallb]. rewrite andb_true_r. apply andb_comm.
Qed.

Lemma rstrip_split (s : str) :
  exists w, s = rstrip s ++ w /\ forallb isspace w = true.
Proof.
  unfold rstrip. destruct (lstrip_split (rev s)) as [w [E Hw]].
  exists (rev w). split; [| now rewrite forallb_rev].
  rewrite <- rev_app_distr, <- E. now rewrite rev_involutive.
Qed.

(** No tail of [rstrip s] is made of whitespace only. *)
Lemma rstrip_tail (s a b : str) :
  rstrip s = a ++ b -> b <> [] -> forallb isspace b = false.
Proof.
  unfold rstrip. intros E Hb.
  assert (E' : lstrip (rev s) = rev b ++ rev a)
    by (rewrite <- rev_app_distr, <- E; now rewrite rev_involutive).
  pose proof (lstrip_hd (rev s)) as Hh. rewrite E' in Hh.
  rewrite <- forallb_rev. destruct (rev b) as [|x rb] eqn:Er.
  - apply (f_equal (@rev N)) in Er. rewrite rev_involutive in Er. now elim Hb.
  - cbn [app] in Hh. cbn [forallb]. now rewrite Hh.
Qed.

Lemma rstrip_idem (s : str) : rstrip (rstrip s) = rstrip s.
Proof. unfold rstrip. now rewrite rev_involutive, lstrip_idem. Qed.

Lemma rstrip_hd (s : str) :
  match s with [] => True | x :: _ => isspace x = false end ->
  match rstrip s with [] => True | x :: _ => isspace x = false end.
Proof.
  destruct s as [|x s]; [intros _; exact I |]. intros Hx.
  destruct (rstrip_split (x :: s)) as [w [E Hw]].
  destruct (rstrip (x :: s)) as [|y r]; [exact I |].
  cbn [app] in E. now injection E as <- _.
Qed.

Lemma strip_idem (s : str) : strip (strip s) = strip s.
Proof.
  unfold strip. rewrite (lstrip_fixed (rstrip (lstrip s))).
  - apply rstrip_idem.
  - apply rstrip_hd, lstrip_hd.
Qed.

(** [x] is some whitespace, [strip x], some whitespace. *)
Lemma strip_split (x : str) :
  exists w1 w2,
    x = w1 ++ strip x ++ w2 /\ lstrip x = strip x ++ w2
    /\ forallb isspace w1 = true /\ forallb isspace w2 = true.
Proof.
  destruct (lstrip_split x) as [w1 [E1 H1]].
  destruct (rstrip_split (lstrip x)) as [w2 [E2 H2]].
  exists w1, w2. unfold strip. rewrite <- E2. auto.
Qed.

(** ** Markers *)

Lemma startswith_app_not (m a t : str) (z : char) :
  forallb (fun x => negb (x =? z)%N) m = true ->
  startswith m (a ++ z :: t) = true -> startswith m a = true.
Proof.
  revert a; induction m as [|x m IH]; intros a Hm H; [reflexivity |].
  cbn [forallb] in Hm. apply andb_true_iff in Hm as [Hx Hm].
  destruct a as [|y a]; cbn [app startswith] in *.
  - apply andb_true_iff in H as [H _]. now rewrite H in Hx.
  - apply andb_true_iff in H as [-> H]. now apply IH.
Qed.

(** An occurrence of a marker does not run from a text into a following
    backslash or whitespace. *)
Lemma marker_no_straddle (M a t : str) (z : char) :
  is_marker M = true -> z = backslash \/ isspace z = true -> a <> [] ->
  startswith M (a ++ z :: t) = true -> startswith M a = true.
Proof.
  intros HM Hz Ha H. destruct M as [|c m]; [discriminate |].
  destruct a as [|y a]; [now elim Ha |].
  cbn [is_marker] in HM. apply andb_true_iff in HM as [_ HM].
  cbn [app startswith] in *. apply andb_true_iff in H as [-> H].
  apply (startswith_app_not m a t z); [| assumption].
  rewrite forallb_forall in *. intros x Hx. specialize (HM x Hx).
  apply andb_true_iff in HM as [H1 H2]. apply negb_true_iff in H1, H2.
  apply negb_true_iff. apply N.eqb_neq. intros ->.
  destruct Hz as [-> | Hz]; [now rewrite N.eqb_refl in H1 | congruence].
Qed.

Lemma marker_hd (M : str) :
  is_marker M = true ->
  match M with [] => False | c :: _ => c = backslash /\ isspace c = false end.
Proof.
  destruct M as [|c m]; [discriminate |]. cbn [is_marker].
  intros H. apply andb_true_iff in H as [H _]. apply N.eqb_eq in H as ->.
  now split.
Qed.

Lemma contains_infix (M x u v t : str) :
  x = u ++ v ++ t -> startswith M v = true -> contains M x = true.
Proof.
  intros -> H. apply startswith_iff in H as [t' ->]. apply contains_iff.
  exists u, (t' ++ t). now rewrite <- !app_assoc.
Qed.

Lemma startswith_app_cases (M a b : str) :
  startswith M (a ++ b) = true ->
  startswith M a = true
  \/ (startswith a M = true /\ List.length a < List.length M).
Proof.
  revert a; induction M as [|x M IH]; intros a H; [now left |].
  destruct a as [|y a].
  - right. split; [reflexivity | simpl; lia].
  - cbn [app startswith] in *. apply andb_true_iff in H as [Hxy H].
    destruct (IH a H) as [H1 | [H1 H2]].
    + left. now rewrite Hxy.
    + right. apply N.eqb_eq in Hxy as ->. rewrite N.eqb_refl. cbn [andb].
      split; [assumption | simpl; lia].
Qed.

(** An occurrence of [M] in [a ++ b] lies in [a], or in [b], or [a] ends
    inside it. *)
Lemma contains_app_cases (M a b : str) :
  contains M (a ++ b) = true ->
  contains M a = true \/ ends_partial M a = true \/ contains M b = true.
Proof.
  induction a as [|c a IH]; intros H; [now right; right |].
  cbn [app contains] in H. apply orb_true_iff in H as [H | H].
  - change (c :: a ++ b) with ((c :: a) ++ b) in H.
    apply startswith_app_cases in H as [H | [H1 H2]].
    + left. cbn [contains]. now rewrite H.
    + right; left. cbn [ends_partial]. rewrite H1.
      apply Nat.ltb_lt in H2. now rewrite H2.
  - destruct (IH H) as [H1 | [H1 | H1]].
    + left. cbn [contains]. rewrite H1. apply orb_true_r.
    + right; left. cbn [ends_partial]. rewrite H1. apply orb_true_r.
    + now right; right.
Qed.

Lemma contains_app_clean (M a b : str) :
  contains M a = false -> ends_partial M a = false -> contains M b = false ->
  contains M (a ++ b) = false.
Proof.
  intros H1 H2 H3. apply not_true_iff_false. intros H.
  apply contains_app_cases in H as [H | [H | H]]; congruence.
Qed.

(** ** Documents made of quotation wrappers *)

Lemma quote_tail_fails (c : captures) (x u b t : str) (w2 rest : str) :
  contains QUOTE_END x = false ->
  x = u ++ b ++ t -> forallb isspace b = false ->
  forallb isspace w2 = true ->
  exec quote_tail (c, b ++ w2 ++ QUOTE_END ++ rest) = [].
Proof.
  intros Hx Ex Hb Hw2. apply exec_nil. intros w s' c' E Hsem.
  unfold quote_tail in Hsem. cbn [sem] in Hsem.
  destruct Hsem as (ws & e & cm & -> & [Hws ->] & He).
  apply sem_lits in He as [-> ->].
  apply (f_equal lstrip) in E. rewrite <- !app_assoc in E.
  rewrite (lstrip_app_ws ws) in E by assumption.
  rewrite (lstrip_fixed (QUOTE_END ++ s')) in E by reflexivity.
  destruct (lstrip_app_notall b (w2 ++ QUOTE_END ++ rest) Hb) as [El Hne].
  rewrite El in E. destruct (lstrip_split b) as [wb [Eb _]].
  assert (Hs : startswith QUOTE_END (lstrip b) = true).
  { destruct w2 as [|z w2].
    - apply (marker_no_straddle QUOTE_END (lstrip b) (tl QUOTE_END ++ rest)
               backslash); [reflexivity | now left | assumption |].
      apply startswith_iff. exists s'. exact E.
    - apply (marker_no_straddle QUOTE_END (lstrip b)
               (w2 ++ QUOTE_END ++ rest) z);
        [reflexivity | | assumption |].
      + right. cbn [forallb] in Hw2. now apply andb_true_iff in Hw2 as [? _].
      + apply startswith_iff. exists s'. exact E. }
  assert (Hc : contains QUOTE_END x = true).
  { apply (contains_infix QUOTE_END x (u ++ wb) (lstrip b) t);
      [| assumption].
    rewrite Ex, Eb at 1. now rewrite <- !app_assoc. }
  congruence.
Qed.

Lemma first_quote_tail (c : captures) (w2 rest : str) :
  forallb isspace w2 = true ->
  first quote_tail (c, w2 ++ QUOTE_END ++ rest) (c, rest).
Proof.
  intros H. eapply first_seq; [| apply first_lits].
  apply first_max; [assumption | reflexivity].
Qed.

(** After [\begin{quote}]: leading whitespace, the lazy group, the tail. *)
Lemma first_quote_body (g : gid) (c : captures) (x rest : str) :
  contains QUOTE_END x = false ->
  first (MaxRepeat Space ;;; Group g (MinRepeat Dot) ;;; quote_tail)%re
        (c, x ++ QUOTE_END ++ rest) ((g, strip x) :: c, rest).
Proof.
  intros Hx. destruct (strip_split x) as (w1 & w2 & E & El & H1 & H2).
  eapply first_seq with (mid := (c, strip x ++ w2 ++ QUOTE_END ++ rest)).
  - rewrite E at 1. rewrite <- !app_assoc. apply first_max; [assumption |].
    pose proof (lstrip_hd x) as Hh. rewrite El in Hh.
    destruct (strip x) as [|y s]; [| exact Hh].
    destruct w2 as [|z w2]; [reflexivity | exact Hh].
  - apply first_lazy_group; [| now apply first_quote_tail].
    intros a b c' Ea Hb.
    apply quote_tail_fails with (x := x) (u := w1 ++ a) (t := w2);
      [assumption | | | assumption].
    + rewrite E at 1. rewrite Ea. now rewrite <- !app_assoc.
    + apply (rstrip_tail (lstrip x) a b); assumption.
Qed.

Lemma match_at_wrapper (x rest : str) :
  contains QUOTE_END x = false ->
  match_at QUOTE_BLOCK_PATTERN (wrapper x ++ rest)
  = Some (mkMatch QUOTE_BLOCK_PATTERN (wrapper x) [(Idx 1, strip x)], rest).
Proof.
  intros Hx.
  assert (F : first QUOTE_BLOCK_PATTERN ([], wrapper x ++ rest)
                ([(Idx 1, strip x)], rest)).
  { unfold wrapper. rewrite <- !app_assoc.
    eapply first_seq; [apply first_lits |].
    now apply (first_quote_body (Idx 1) [] x rest). }
  rewrite (match_at_first _ _ _ _ F). now rewrite consumed_app.
Qed.

(** A pattern that begins with the marker [M] matches only where [M] is. *)
Lemma match_at_needs (r : regex) (M s : str) :
  (forall c w c', sem r c w c' -> startswith M w = true) ->
  startswith M s = false -> match_at r s = None.
Proof.
  intros Hr Hs. apply match_at_None. intros w rest c -> Hw.
  apply Hr in Hw. apply startswith_iff in Hw as [t ->].
  rewrite <- app_assoc, startswith_app in Hs. discriminate.
Qed.

Lemma startswith_before_marker (M b Y : str) :
  is_marker M = true -> b <> [] -> contains M b = false ->
  startswith M (b ++ M ++ Y) = false.
Proof.
  intros HM Hb Hc. apply not_true_iff_false. intros H.
  pose proof (marker_hd M HM) as Hh. destruct M as [|c m]; [easy |].
  destruct Hh as [-> _]. cbn [app] in H.
  apply marker_no_straddle in H; [| assumption | now left | assumption].
  rewrite (contains_infix (backslash :: m) b [] b []) in Hc;
    [discriminate | now rewrite app_nil_r | assumption].
Qed.

Lemma contains_tail (M a b : str) :
  contains M (a ++ b) = false -> contains M b = false.
Proof. apply contains_app_r. Qed.

Lemma quote_needs_begin (c : captures) (w : str) (c' : captures) :
  sem QUOTE_BLOCK_PATTERN c w c' -> startswith QUOTE_BEGIN w = true.
Proof.
  intros H. apply quote_sem in H as (w1 & x & w2 & -> & _).
  apply startswith_app.
Qed.

(** The search for the next wrapper: the text before it is passed over. *)
Lemma search_wrapper (pre x rest : str) :
  contains QUOTE_BEGIN pre = false -> contains QUOTE_END x = false ->
  search QUOTE_BLOCK_PATTERN (pre ++ wrapper x ++ rest)
  = Some (pre, mkMatch QUOTE_BLOCK_PATTERN (wrapper x) [(Idx 1, strip x)],
          rest).
Proof.
  intros Hpre Hx. rewrite search_skip.
  - rewrite (search_here _ _ _ _ (match_at_wrapper x rest Hx)).
    now rewrite app_nil_r.
  - intros a b -> Hb. apply (match_at_needs _ QUOTE_BEGIN);
      [exact quote_needs_begin |].
    unfold wrapper. rewrite <- !app_assoc.
    apply startswith_before_marker; [reflexivity | assumption |].
    now apply contains_app_r in Hpre.
Qed.

Lemma quote_replacer_wrapper (x : str) :
  quote_replacer (mkMatch QUOTE_BLOCK_PATTERN (wrapper x) [(Idx 1, strip x)])
  = Ok (strip x).
Proof.
  unfold quote_replacer. cbn. now rewrite strip_idem.
Qed.

Lemma search_no_begin (s : str) :
  contains QUOTE_BEGIN s = false -> search QUOTE_BLOCK_PATTERN s = None.
Proof.
  intros H. apply search_quote_unterminated. intros a b E.
  rewrite (proj2 (contains_iff QUOTE_BEGIN s)) in H; [discriminate |].
  now exists a, b.
Qed.

(** [remove_quote_blocks] on a document of wrappers. *)
Lemma remove_quote_blocks_quoted (l : list (str * str)) (tail : str) :
  Forall (fun '(pre, x) =>
            contains QUOTE_BEGIN pre = false /\ contains QUOTE_END x = false) l ->
  search QUOTE_BLOCK_PATTERN tail = None ->
  remove_quote_blocks (quoted l tail)
  = Ok (unquoted l tail, List.length l).
Proof.
  intros Hl Ht. rewrite remove_quote_blocks_eq.
  induction Hl as [|[pre x] l [Hp Hx] Hl IH]; cbn [quoted unquoted List.length].
  - now apply subn_search_none; [exact quote_consuming |].
  - rewrite subn_step by exact quote_consuming.
    rewrite (search_wrapper pre x _ Hp Hx), quote_replacer_wrapper.
    cbn [bind]. rewrite IH. reflexivity.
Qed.

Lemma contains_strip (M x : str) :
  contains M x = false -> contains M (strip x) = false.
Proof.
  intros H. destruct (strip_split x) as (w1 & w2 & E & _).
  rewrite E in H. apply contains_app_r in H. now apply contains_app_l in H.
Qed.

Lemma unquoted_free (M : str) (l : list (str * str)) (tail : str) :
  pieces_free M l tail -> joints_free M l ->
  contains M (unquoted l tail) = false.
Proof.
  intros [Hp Ht] Hj. induction l as [|[pre x] l IH]; [exact Ht |].
  apply Forall_cons_iff in Hp as [Hp1 Hp']. cbv beta iota in Hp1.
  destruct Hp1 as [Hp1 Hp2].
  apply Forall_cons_iff in Hj as [Hj1 Hj']. cbv beta iota in Hj1.
  destruct Hj1 as [Hj1 Hj2].
  cbn [unquoted]. apply contains_app_clean; [assumption | assumption |].
  apply contains_app_clean; [now apply contains_strip | assumption |].
  now apply IH.
Qed.

Lemma pieces_free_quoted (l : list (str * str)) (tail : str) :
  pieces_free QUOTE_BEGIN l tail ->
  Forall (fun '(_, x) => contains QUOTE_END x = false) l ->
  remove_quote_blocks (quoted l tail) = Ok (unquoted l tail, List.length l).
Proof.
  intros [Hp Ht] He. apply remove_quote_blocks_quoted.
  - clear Ht. induction l as [|[pre x] l IH]; [constructor |].
    apply Forall_cons_iff in Hp as [Hp1 Hp']. cbv beta iota in Hp1.
    destruct Hp1 as [Hp1 _].
    apply Forall_cons_iff in He as [He1 He']. cbv beta iota in He1.
    constructor; [now split | now apply IH].
  - now apply search_no_begin.
Qed.

Lemma never_closed_free (B E s : str) :
  contains B s = false -> never_closed B E s.
Proof.
  intros H a b Es. rewrite (proj2 (contains_iff B s)) in H; [discriminate |].
  now exists a, b.
Qed.

(** ** Documents made of list items followed by a quotation wrapper *)







(** ** The unicode pass creates no begin-marker *)

Lemma startswith_substitute_plain (m s : str) :
  forallb (fun x => negb (x =? backslash)%N && negb (is_key x)) m = true ->
  startswith m (flat_map substitute s) = true -> startswith m s = true.
Proof.
  revert s; induction m as [|x m IH]; intros s Hm H; [reflexivity |].
  cbn [forallb] in Hm. apply andb_true_iff in Hm as [Hx Hm].
  apply andb_true_iff in Hx as [Hx1 Hx2]. apply negb_true_iff in Hx1, Hx2.
  destruct s as [|c s]; [discriminate |]. cbn [flat_map] in H.
  destruct (is_key c) eqn:Ec.
  - destruct (substitute_key c Ec) as (p & E & _). rewrite E in H.
    cbn [app startswith] in H. apply andb_true_iff in H as [H _].
    congruence.
  - rewrite (substitute_nonkey c Ec) in H. cbn [app startswith] in *.
    apply andb_true_iff in H as [-> H]. now apply IH.
Qed.

Lemma startswith_substitute_marker (m s : str) :
  m <> [] ->
  forallb (fun x => negb (x =? backslash)%N && negb (is_key x)) m = true ->
  startswith (backslash :: m) (flat_map substitute s) = true ->
  startswith (backslash :: m) s = true.
Proof.
  intros Hne Hm H. destruct s as [|c s]; [discriminate |].
  cbn [flat_map] in H. destruct (is_key c) eqn:Ec.
  - destruct (substitute_key c Ec) as (p & E & _). rewrite E in H.
    destruct m as [|x m]; [now elim Hne |].
    cbn [app startswith forallb] in H, Hm.
    apply andb_true_iff in H as [_ H]. apply andb_true_iff in H as [H _].
    apply andb_true_iff in Hm as [Hm _]. apply andb_true_iff in Hm as [Hm _].
    apply negb_true_iff in Hm. congruence.
  - rewrite (substitute_nonkey c Ec) in H. cbn [app startswith] in *.
    apply andb_true_iff in H as [-> H].
    now rewrite (startswith_substitute_plain m s Hm H).
Qed.

Lemma begin_marker_shape (M : str) :
  In M begin_markers ->
  exists m, M = backslash :: m /\ m <> []
            /\ forallb (fun x => negb (x =? backslash)%N && negb (is_key x)) m
               = true.
Proof.
  intros [<- | [<- | []]]; eexists; (split; [reflexivity |]);
    (split; [discriminate | reflexivity]).
Qed.

Lemma contains_substitute (M s : str) :
  In M begin_markers ->
  contains M (flat_map substitute s) = true -> contains M s = true.
Proof.
  intros HM. induction s as [|c s IH]; [now destruct HM as [<- | [<- | []]] |].
  destruct (is_key c) eqn:Ec.
  - cbn [flat_map]. intros H. cbn [contains]. rewrite IH; [apply orb_true_r |].
    apply is_key_cases in Ec.
    destruct HM as [<- | [<- | []]];
      destruct Ec as [-> | [-> | [-> | [-> | [-> | ->]]]]]; exact H.
  - intros H.
    assert (E : flat_map substitute (c :: s) = c :: flat_map substitute s)
      by (cbn [flat_map]; now rewrite (substitute_nonkey c Ec)).
    rewrite E in H. cbn [contains] in H. apply orb_true_iff in H as [H | H].
    + rewrite <- E in H. cbn [contains].
      destruct (begin_marker_shape M HM) as (m & -> & Hne & Hm).
      now rewrite (startswith_substitute_marker m (c :: s) Hne Hm H).
    + cbn [contains]. rewrite (IH H). apply orb_true_r.
Qed.

Lemma contains_substitute_free (M s : str) :
  In M begin_markers -> contains M s = false ->
  contains M (flat_map substitute s) = false.
Proof.
  intros HM H. apply not_true_iff_false. intros H'.
  apply (contains_substitute M s HM) in H'. congruence.
Qed.

(** ** Texts that end with a list-item marker *)










(** ** Page-fragment wrappers *)

Lemma search_minipage_none (b : str) :
  search MINIPAGE_PATTERN b = None <-> no_minipage b.
Proof.
  rewrite search_None. unfold no_minipage. split.
  - intros H a pos width content b' Hp Hw E.
    apply (H a (minipage pos width content) b' [(Name "body", content)]);
      [exact E |].
    apply minipage_sem. now exists pos, width, content.
  - intros H pre w rest c E Hw.
    apply minipage_sem in Hw as (pos & width & content & -> & Hp & Hw & _).
    now apply (H pre pos width content rest Hp Hw).
Qed.









(** ** Long tables *)

Lemma stripped_eq (body : str) : _strip_minipages body = Ok (stripped body).
Proof.
  unfold stripped. destruct (_strip_minipages_total body) as [b ->].
  reflexivity.
Qed.







(** ** A removed wrapper shortens the body *)

Lemma lstrip_length (s : str) : List.length (lstrip s) <= List.length s.
Proof.
  induction s as [|c s IH]; [reflexivity |]. cbn [lstrip].
  destruct (isspace c); simpl; lia.
Qed.

Lemma strip_length (s : str) : List.length (strip s) <= List.length s.
Proof.
  unfold strip, rstrip. rewrite length_rev.
  etransitivity; [apply lstrip_length |]. rewrite length_rev.
  apply lstrip_length.
Qed.

Lemma minipage_subn_length (s : str) :
  forall out n,
    subn MINIPAGE_PATTERN minipage_replacer s = Ok (out, n) ->
    List.length out <= List.length s
    /\ (0 < n -> List.length out < List.length s).
Proof.
  induction s as [s E | s pre m rest E IH]
    using (subn_ind MINIPAGE_PATTERN minipage_consuming);
    intros out n; rewrite subn_step by exact minipage_consuming; rewrite E.
  - intros H. injection H as <- <-. split; [reflexivity | lia].
  - apply search_Some in E as (w & c & -> & Hw & ->).
    apply minipage_replacer_match in Hw
      as (pos & width & body & -> & _ & _ & ->).
    cbn [bind].
    destruct (subn MINIPAGE_PATTERN minipage_replacer rest) as [[o k]|e] eqn:Er;
      [| discriminate].
    cbn [bind]. intros H. injection H as <- <-.
    destruct (IH o k eq_refl) as [Hle _].
    pose proof (strip_length body) as Hs.
    rewrite !length_app. cbn [List.length].
    split; [lia | intros _; lia].
Qed.

(** [_strip_minipages] changes a body exactly when it removes a wrapper. *)
Lemma stripped_changed (body : str) :
  exists n,
    subn MINIPAGE_PATTERN minipage_replacer body = Ok (stripped body, n)
    /\ (str_eqb (stripped body) body = false <-> 0 < n).
Proof.
  pose proof (stripped_eq body) as E. rewrite _strip_minipages_eq in E.
  destruct (subn MINIPAGE_PATTERN minipage_replacer body) as [[o n]|e] eqn:Es;
    [| discriminate].
  cbn [bind] in E. injection E as ->. exists n. split; [reflexivity |].
  rewrite <- not_true_iff_false, str_eqb_eq. split.
  - intros H. destruct n; [| lia]. elim H.
    now apply (subn_zero _ _ _ _ minipage_consuming Es).
  - intros Hn Heq. apply minipage_subn_length in Es as [_ Hlt].
    specialize (Hlt Hn). rewrite Heq in Hlt. lia.
Qed.

(** ** Occurrences of the replacement strings *)

Lemma startswith_substitute_plain_eq (m s : str) :
  plain m = true ->
  startswith m (flat_map substitute s) = startswith m s.
Proof.
  unfold plain. revert s; induction m as [|x m IH]; intros s Hm;
    [reflexivity |].
  cbn [forallb] in Hm. apply andb_true_iff in Hm as [Hx Hm].
  apply andb_true_iff in Hx as [Hx1 Hx2]. apply negb_true_iff in Hx1, Hx2.
  destruct s as [|c s]; [reflexivity |]. cbn [flat_map].
  destruct (is_key c) eqn:Ec.
  - destruct (substitute_key c Ec) as (p & E & _). rewrite E.
    cbn [app startswith]. rewrite Hx1.
    destruct (N.eqb_spec x c) as [-> | _]; [congruence | reflexivity].
  - rewrite (substitute_nonkey c Ec). cbn [app startswith].
    now rewrite IH.
Qed.

Lemma startswith_substitute_marker_eq (m s : str) :
  m <> [] -> plain m = true ->
  startswith (backslash :: m) (flat_map substitute s)
  = startswith (backslash :: m) s.
Proof.
  intros Hne Hm. destruct s as [|c s]; [reflexivity |]. cbn [flat_map].
  destruct (is_key c) eqn:Ec.
  - destruct (substitute_key c Ec) as (p & E & _). rewrite E.
    destruct m as [|x m]; [now elim Hne |].
    unfold plain in Hm. cbn [forallb] in Hm.
    apply andb_true_iff in Hm as [Hx _]. apply andb_true_iff in Hx as [Hx _].
    apply negb_true_iff in Hx. cbn [app startswith]. rewrite Hx.
    destruct (N.eqb_spec backslash c) as [<- | _]; [discriminate |].
    now rewrite andb_false_r.
  - rewrite (substitute_nonkey c Ec). cbn [app startswith].
    now rewrite (startswith_substitute_plain_eq m s Hm).
Qed.

Lemma substitute_key_shape (c : char) :
  is_key c = true ->
  exists m, substitute c = backslash :: backslash :: m /\ m <> []
            /\ plain m = true.
Proof.
  intros H. apply is_key_cases in H.
  destruct H as [-> | [-> | [-> | [-> | [-> | ->]]]]];
    eexists; (split; [reflexivity |]); (split; [discriminate | reflexivity]).
Qed.

Lemma startswith_cons (x c : char) (p s : str) :
  startswith (x :: p) (c :: s) = (x =? c)%N && startswith p s.
Proof. reflexivity. Qed.

Lemma occ_cons_other (k c : char) (s : str) :
  k <> c -> occ k (c :: s) = occ k s.
Proof.
  intros H. unfold occ. cbn [filter].
  now rewrite (proj2 (N.eqb_neq k c) H).
Qed.

Ltac key_cases H :=
  apply is_key_cases in H;
  destruct H as [-> | [-> | [-> | [-> | [-> | ->]]]]].

(** Each key of the input adds one occurrence of its replacement, and the
    pass adds or removes no other. *)
Lemma occurrences_substitute (k : char) (s : str) :
  is_key k = true ->
  occurrences (substitute k) (flat_map substitute s)
  = occurrences (substitute k) s + occ k s.
Proof.
  intros Hk. induction s as [|c s IH].
  - key_cases Hk; reflexivity.
  - destruct (is_key c) eqn:Ec.
    + unfold occ in *. key_cases Hk; key_cases Ec;
        cbn in IH |- *; rewrite IH; lia.
    + rewrite occ_cons_other by (intros ->; congruence).
      cbn [flat_map]. rewrite (substitute_nonkey c Ec). cbn [app occurrences].
      rewrite IH.
      destruct (substitute_key_shape k Hk) as (m & E & Hne & Hm).
      rewrite E, !startswith_cons.
      rewrite (startswith_substitute_marker_eq m s Hne Hm). lia.
Qed.

Lemma occ_substitute_zero (k : char) (s : str) :
  is_key k = true -> occ k (flat_map substitute s) = 0.
Proof.
  intros Hk. induction s as [|c s IH]; [reflexivity |].
  cbn [flat_map]. rewrite occ_app, IH, Nat.add_0_r.
  destruct (is_key c) eqn:Ec.
  - key_cases Hk; key_cases Ec; reflexivity.
  - rewrite (substitute_nonkey c Ec). unfold occ. cbn [filter].
    destruct (N.eqb_spec k c) as [-> | _]; [congruence | reflexivity].
Qed.

Lemma filter_is_key_sum (s : str) :
  List.length (filter is_key s)
  = occ 0x1AE%N s + occ 0x1D4B5%N s + occ 0x2124%N s + occ 0x211D%N s
    + occ 0x211A%N s + occ 0x2115%N s.
Proof.
  induction s as [|c s IH]; [reflexivity |]. cbn [filter].
  destruct (is_key c) eqn:Ec.
  - cbn [List.length]. rewrite IH. unfold occ. key_cases Ec; cbn; lia.
  - rewrite IH, !occ_cons_other; [reflexivity | | | | | |];
      intros <-; discriminate.
Qed.

(** ** Induction along the matches of each pass *)

(** Every run of [remove_quote_blocks] is a chain of steps, each copying the
    text before a match and putting the trimmed group in place of the
    match. *)
Lemma remove_quote_blocks_ind (P : str -> str -> nat -> Prop) :
  (forall s, search QUOTE_BLOCK_PATTERN s = None -> P s s 0) ->
  (forall pre w1 x w2 rest out n,
      forallb isspace w1 = true -> forallb isspace w2 = true ->
      remove_quote_blocks rest = Ok (out, n) -> P rest out n ->
      P (pre ++ QUOTE_BEGIN ++ w1 ++ x ++ w2 ++ QUOTE_END ++ rest)
        (pre ++ strip x ++ out) (S n)) ->
  forall text out n, remove_quote_blocks text = Ok (out, n) -> P text out n.
Proof.
  intros Hbase Hstep text.
  induction text as [s E | s pre m rest E IH]
    using (subn_ind QUOTE_BLOCK_PATTERN quote_consuming);
    intros out n; rewrite remove_quote_blocks_eq;
    rewrite subn_step by exact quote_consuming; rewrite E.
  - intros H. injection H as <- <-. now apply Hbase.
  - apply search_Some in E as (w & c & -> & Hw & ->).
    apply quote_replacer_match in Hw as (w1 & x & w2 & -> & H1 & H2 & ->).
    cbn [bind].
    destruct (subn QUOTE_BLOCK_PATTERN quote_replacer rest) as [[o k]|e] eqn:Er;
      [| discriminate].
    cbn [bind]. intros H. injection H as <- <-. rewrite <- !app_assoc.
    apply Hstep; [assumption | assumption | exact Er | now apply IH].
Qed.

Lemma normalize_bibliography_items_ind (P : str -> str -> nat -> Prop) :
  (forall s, search BIBITEM_QUOTE_PATTERN s = None -> P s s 0) ->
  (forall pre w0 w1 x w2 rest out n,
      forallb isspace w0 = true -> forallb isspace w1 = true ->
      forallb isspace w2 = true ->
      normalize_bibliography_items rest = Ok (out, n) -> P rest out n ->
      P (pre ++ ITEM ++ w0 ++ QUOTE_BEGIN ++ w1 ++ x ++ w2 ++ QUOTE_END ++ rest)
        (pre ++ ITEM ++ of_string " " ++ strip x ++ out) (S n)) ->
  forall text out n,
    normalize_bibliography_items text = Ok (out, n) -> P text out n.
Proof.
  intros Hbase Hstep text.
  induction text as [s E | s pre m rest E IH]
    using (subn_ind BIBITEM_QUOTE_PATTERN bibitem_consuming);
    intros out n; rewrite normalize_bibliography_items_eq;
    rewrite subn_step by exact bibitem_consuming; rewrite E.
  - intros H. injection H as <- <-. now apply Hbase.
  - apply search_Some in E as (w & c & -> & Hw & ->).
    apply bibitem_replacer_match in Hw
      as (w0 & w1 & x & w2 & -> & H0 & H1 & H2 & ->).
    cbn [bind].
    destruct (subn BIBITEM_QUOTE_PATTERN bibitem_replacer rest)
      as [[o k]|e] eqn:Er; [| discriminate].
    cbn [bind]. intros H. injection H as <- <-. rewrite <- !app_assoc.
    apply Hstep; [assumption | assumption | assumption | exact Er |].
    now apply IH.
Qed.

Lemma minipage_subn_ind (P : str -> str -> nat -> Prop) :
  (forall s, search MINIPAGE_PATTERN s = None -> P s s 0) ->
  (forall pre pos width content rest out n,
      no_char rbracket pos = true -> no_char rbrace width = true ->
      P rest out n ->
      P (pre ++ minipage pos width content ++ rest)
        (pre ++ strip content ++ out) (S n)) ->
  forall body out n,
    subn MINIPAGE_PATTERN minipage_replacer body = Ok (out, n) -> P body out n.
Proof.
  intros Hbase Hstep body.
  induction body as [s E | s pre m rest E IH]
    using (subn_ind MINIPAGE_PATTERN minipage_consuming);
    intros out n; rewrite subn_step by exact minipage_consuming; rewrite E.
  - intros H. injection H as <- <-. now apply Hbase.
  - apply search_Some in E as (w & c & -> & Hw & ->).
    apply minipage_replacer_match in Hw
      as (pos & width & content & -> & Hp & Hwd & ->).
    cbn [bind].
    destruct (subn MINIPAGE_PATTERN minipage_replacer rest)
      as [[o k]|e] eqn:Er; [| discriminate].
    cbn [bind]. intros H. injection H as <- <-.
    apply (Hstep pre pos width content rest o k Hp Hwd). now apply IH.
Qed.

Lemma longtable_loop_ind (P : str -> str -> nat -> Prop) :
  (forall s, search LONGTABLE_PATTERN s = None -> P s s 0) ->
  (forall pre cols body rest out n,
      no_char rbrace cols = true -> P rest out n ->
      P (pre ++ table cols body ++ rest)
        (pre ++ table cols (stripped body) ++ out)
        ((if str_eqb (stripped body) body then 0 else 1) + n)) ->
  forall s st out k st',
    subn_st LONGTABLE_PATTERN longtable_replacer st s = Ok (out, k, st') ->
    exists n, st' = st + n /\ P s out n.
Proof.
  intros Hbase Hstep s.
  induction s as [s E | s pre m rest E IH]
    using (subn_ind LONGTABLE_PATTERN longtable_consuming);
    intros st out k st'; rewrite subn_st_step by exact longtable_consuming;
    rewrite E.
  - intros H. injection H as <- _ <-. exists 0. split; [lia | now apply Hbase].
  - apply search_Some in E as (w & c & -> & Hw & ->).
    apply (longtable_replacer_match st) in Hw
      as (cols & body & nb & -> & Hc & Hs & ->).
    rewrite stripped_eq in Hs. injection Hs as <-.
    cbn [bind].
    destruct (subn_st LONGTABLE_PATTERN longtable_replacer _ rest)
      as [[[o j] st2]|e] eqn:Er; [| discriminate].
    cbn [bind]. intros H. injection H as <- _ <-.
    apply IH in Er as (n & -> & Hn).
    exists ((if str_eqb (stripped body) body then 0 else 1) + n). split.
    + destruct (str_eqb (stripped body) body); lia.
    + now apply (Hstep pre cols body rest o n Hc).
Qed.

Lemma simplify_longtables_ind (P : str -> str -> nat -> Prop) :
  (forall s, search LONGTABLE_PATTERN s = None -> P s s 0) ->
  (forall pre cols body rest out n,
      no_char rbrace cols = true -> P rest out n ->
      P (pre ++ table cols body ++ rest)
        (pre ++ table cols (stripped body) ++ out)
        ((if str_eqb (stripped body) body then 0 else 1) + n)) ->
  forall text out n, simplify_longtables text = Ok (out, n) -> P text out n.
Proof.
  intros Hbase Hstep text out n. unfold simplify_longtables.
  destruct (subn_st LONGTABLE_PATTERN longtable_replacer 0 text)
    as [[[o k] st]|e] eqn:E; [| discriminate].
  cbn [bind]. intros H. injection H as <- <-.
  apply (longtable_loop_ind P Hbase Hstep) in E as (n & -> & Hn). exact Hn.
Qed.

(** ** Lengths *)

Lemma search_found (r : regex) (s pre w rest : str) (c : captures) :
  s = pre ++ w ++ rest -> sem r [] w c -> search r s <> None.
Proof.
  intros E Hw H. rewrite search_None in H. now apply (H pre w rest c).
Qed.

Lemma remove_quote_blocks_length (text out : str) (n : nat) :
  remove_quote_blocks text = Ok (out, n) ->
  List.length out + 24 * n <= List.length text.
Proof.
  revert text out n. apply remove_quote_blocks_ind.
  - intros s _. lia.
  - intros pre w1 x w2 rest out n _ _ _ IH.
    rewrite !length_app.
    change (List.length QUOTE_BEGIN) with 13.
    change (List.length QUOTE_END) with 11.
    pose proof (strip_length x). lia.
Qed.

Lemma normalize_bibliography_items_length (text out : str) (n : nat) :
  normalize_bibliography_items text = Ok (out, n) ->
  List.length out + 23 * n <= List.length text.
Proof.
  revert text out n. apply normalize_bibliography_items_ind.
  - intros s _. lia.
  - intros pre w0 w1 x w2 rest out n _ _ _ _ IH.
    rewrite !length_app.
    change (List.length QUOTE_BEGIN) with 13.
    change (List.length QUOTE_END) with 11.
    change (List.length (of_string " ")) with 1.
    pose proof (strip_length x). lia.
Qed.

Lemma minipage_subn_shrinks (body out : str) (n : nat) :
  subn MINIPAGE_PATTERN minipage_replacer body = Ok (out, n) ->
  List.length out + 34 * n <= List.length body.
Proof.
  revert body out n.
  apply (minipage_subn_ind
           (fun body out n => List.length out + 34 * n <= List.length body)).
  - intros s _. lia.
  - intros pre pos width content rest out n _ _ IH.
    unfold minipage. rewrite !length_app. cbn [List.length].
    change (List.length MINIPAGE_BEGIN) with 16.
    change (List.length MINIPAGE_END) with 14.
    pose proof (strip_length content). lia.
Qed.

Lemma stripped_length (body : str) :
  List.length (stripped body)
  + (if str_eqb (stripped body) body then 0 else 34)
  <= List.length body.
Proof.
  destruct (stripped_changed body) as (n & Hn & Hiff).
  apply minipage_subn_shrinks in Hn.
  destruct (str_eqb (stripped body) body) eqn:E; [lia |].
  destruct Hiff as [Hiff _]. specialize (Hiff eq_refl). lia.
Qed.

Lemma simplify_longtables_length (text out : str) (n : nat) :
  simplify_longtables text = Ok (out, n) ->
  List.length out + 34 * n <= List.length text.
Proof.
  revert text out n. apply simplify_longtables_ind.
  - intros s _. lia.
  - intros pre cols body rest out n _ IH.
    unfold table. rewrite !length_app.
    pose proof (stripped_length body).
    destruct (str_eqb (stripped body) body); lia.
Qed.

Lemma flat_map_substitute_length (s : str) :
  List.length s + 4 * List.length (filter is_key s)
  <= List.length (flat_map substitute s).
Proof.
  induction s as [|c s IH]; [reflexivity |].
  cbn [flat_map filter]. rewrite length_app.
  destruct (is_key c) eqn:E.
  - cbn [List.length].
    assert (5 <= List.length (substitute c))
      by (key_cases E; cbn; lia).
    lia.
  - rewrite (substitute_nonkey c E). cbn [List.length]. lia.
Qed.

(** ** Key characters *)

Lemma keyfree_app (a b : str) : keyfree (a ++ b) = keyfree a && keyfree b.
Proof. apply forallb_app. Qed.

Lemma substitute_keyfree (c : char) : keyfree (substitute c) = true.
Proof.
  destruct (is_key c) eqn:E.
  - key_cases E; reflexivity.
  - rewrite (substitute_nonkey c E). unfold keyfree. cbn [forallb].
    now rewrite E.
Qed.

Lemma flat_map_substitute_keyfree (s : str) :
  keyfree (flat_map substitute s) = true.
Proof.
  induction s as [|c s IH]; [reflexivity |]. cbn [flat_map].
  now rewrite keyfree_app, substitute_keyfree, IH.
Qed.

Lemma keyfree_filter (s : str) : keyfree s = true -> filter is_key s = [].
Proof.
  induction s as [|c s IH]; [reflexivity |]. unfold keyfree. cbn [forallb filter].
  intros H. apply andb_true_iff in H as [Hc Hs]. apply negb_true_iff in Hc.
  rewrite Hc. now apply IH.
Qed.

Lemma isspace_not_key (c : char) : isspace c = true -> is_key c = false.
Proof.
  intros H. destruct (is_key c) eqn:E; [| reflexivity].
  key_cases E; discriminate.
Qed.

Lemma filter_is_key_ws (w : str) :
  forallb isspace w = true -> filter is_key w = [].
Proof.
  induction w as [|c w IH]; [reflexivity |]. cbn [forallb filter].
  intros H. apply andb_true_iff in H as [Hc Hw].
  rewrite (isspace_not_key c Hc). now apply IH.
Qed.

Lemma filter_is_key_strip (x : str) :
  filter is_key (strip x) = filter is_key x.
Proof.
  destruct (strip_split x) as (w1 & w2 & E & _ & H1 & H2).
  rewrite E at 2. rewrite !filter_app.
  now rewrite (filter_is_key_ws w1 H1), (filter_is_key_ws w2 H2), app_nil_r.
Qed.

(** The quotation pass keeps every key character, in order. *)
Lemma remove_quote_blocks_keys (text out : str) (n : nat) :
  remove_quote_blocks text = Ok (out, n) ->
  filter is_key out = filter is_key text.
Proof.
  revert text out n. apply remove_quote_blocks_ind.
  - reflexivity.
  - intros pre w1 x w2 rest out n H1 H2 _ IH.
    rewrite !filter_app, IH, filter_is_key_strip.
    rewrite (filter_is_key_ws w1 H1), (filter_is_key_ws w2 H2).
    reflexivity.
Qed.

Ltac split_andb :=
  repeat match goal with
         | H : _ && _ = true |- _ => apply andb_true_iff in H as [? ?]
         end.

Lemma keyfree_strip (x : str) : keyfree x = true -> keyfree (strip x) = true.
Proof.
  intros H. destruct (strip_split x) as (w1 & w2 & E & _).
  rewrite E in H. rewrite !keyfree_app in H.
  apply andb_true_iff in H as [_ H]. now apply andb_true_iff in H as [H _].
Qed.

Lemma minipage_subn_keyfree (body out : str) (n : nat) :
  subn MINIPAGE_PATTERN minipage_replacer body = Ok (out, n) ->
  keyfree body = true -> keyfree out = true.
Proof.
  revert body out n.
  apply (minipage_subn_ind
           (fun body out n => keyfree body = true -> keyfree out = true)).
  - auto.
  - intros pre pos width content rest out n _ _ IH. unfold minipage.
    rewrite <- !app_assoc, !keyfree_app. intros H. split_andb.
    repeat (apply andb_true_iff; split); try assumption;
      [now apply keyfree_strip | now apply IH].
Qed.

Lemma stripped_keyfree (body : str) :
  keyfree body = true -> keyfree (stripped body) = true.
Proof.
  destruct (stripped_changed body) as (n & Hn & _).
  exact (minipage_subn_keyfree _ _ _ Hn).
Qed.

Lemma simplify_longtables_keyfree (text out : str) (n : nat) :
  simplify_longtables text = Ok (out, n) ->
  keyfree text = true -> keyfree out = true.
Proof.
  revert text out n.
  apply (simplify_longtables_ind
           (fun text out n => keyfree text = true -> keyfree out = true)).
  - auto.
  - intros pre cols body rest out n _ IH. unfold table.
    rewrite <- !app_assoc, !keyfree_app. intros H. split_andb.
    repeat (apply andb_true_iff; split); try assumption;
      [now apply stripped_keyfree | now apply IH].
Qed.

Lemma normalize_bibliography_items_keyfree (text out : str) (n : nat) :
  normalize_bibliography_items text = Ok (out, n) ->
  keyfree text = true -> keyfree out = true.
Proof.
  revert text out n.
  apply (normalize_bibliography_items_ind
           (fun text out n => keyfree text = true -> keyfree out = true)).
  - auto.
  - intros pre w0 w1 x w2 rest out n _ _ _ _ IH.
    rewrite !keyfree_app. intros H. split_andb.
    repeat (apply andb_true_iff; split); try assumption;
      [now apply keyfree_strip | now apply IH].
Qed.

(** ** Passes that only delete *)

Lemma subseq_refl (a : str) : subseq a a.
Proof. induction a; constructor; assumption. Qed.

Lemma subseq_empty (b : str) : subseq [] b.
Proof. induction b; constructor; assumption. Qed.

Lemma subseq_drop (x a b : str) : subseq a b -> subseq a (x ++ b).
Proof. intros H. induction x; cbn [app]; [assumption | now constructor]. Qed.

Lemma subseq_app (a a' b b' : str) :
  subseq a a' -> subseq b b' -> subseq (a ++ b) (a' ++ b').
Proof.
  intros Ha Hb. induction Ha; cbn [app]; [assumption | |]; now constructor.
Qed.

Lemma subseq_same (p a b : str) : subseq a b -> subseq (p ++ a) (p ++ b).
Proof. intros H. apply subseq_app; [apply subseq_refl | assumption]. Qed.

Lemma subseq_strip (x : str) : subseq (strip x) x.
Proof.
  destruct (strip_split x) as (w1 & w2 & E & _). rewrite E at 2.
  apply subseq_drop. rewrite <- (app_nil_r (strip x)) at 1.
  apply subseq_same, subseq_empty.
Qed.

Lemma subseq_length (a b : str) :
  subseq a b -> List.length a <= List.length b.
Proof. intros H. induction H; simpl; lia. Qed.

Lemma remove_quote_blocks_subseq (text out : str) (n : nat) :
  remove_quote_blocks text = Ok (out, n) -> subseq out text.
Proof.
  revert text out n.
  apply (remove_quote_blocks_ind (fun text out n => subseq out text)).
  - intros s _. apply subseq_refl.
  - intros pre w1 x w2 rest out n _ _ _ IH.
    apply subseq_same, subseq_drop, subseq_drop.
    apply subseq_app; [apply subseq_strip |].
    now apply subseq_drop, subseq_drop.
Qed.

Lemma minipage_subn_subseq (body out : str) (n : nat) :
  subn MINIPAGE_PATTERN minipage_replacer body = Ok (out, n) ->
  subseq out body.
Proof.
  revert body out n.
  apply (minipage_subn_ind (fun body out n => subseq out body)).
  - intros s _. apply subseq_refl.
  - intros pre pos width content rest out n _ _ IH. unfold minipage.
    rewrite <- !app_assoc.
    apply subseq_same. do 7 apply subseq_drop.
    apply subseq_app; [apply subseq_strip |]. now apply subseq_drop.
Qed.

Lemma stripped_subseq (body : str) : subseq (stripped body) body.
Proof.
  destruct (stripped_changed body) as (n & Hn & _).
  exact (minipage_subn_subseq _ _ _ Hn).
Qed.

Lemma simplify_longtables_subseq (text out : str) (n : nat) :
  simplify_longtables text = Ok (out, n) -> subseq out text.
Proof.
  revert text out n.
  apply (simplify_longtables_ind (fun text out n => subseq out text)).
  - intros s _. apply subseq_refl.
  - intros pre cols body rest out n _ IH. unfold table.
    rewrite <- !app_assoc. do 5 apply subseq_same.
    apply subseq_app; [apply stripped_subseq |]. now apply subseq_same.
Qed.

(** ** When a pass finds a match *)

Lemma subn_fires (r : regex) (repl : Match -> result str) (s out : str)
      (n : nat) :
  consuming r -> subn r repl s = Ok (out, n) ->
  (0 < n <-> search r s <> None).
Proof.
  intros Hr. rewrite subn_step by assumption.
  destruct (search r s) as [[[pre m] rest]|].
  - destruct (repl m) as [new|e]; [| discriminate]. cbn [bind].
    destruct (subn r repl rest) as [[o k]|e]; [| discriminate].
    cbn [bind]. intros H. injection H as _ <-. split; [discriminate | lia].
  - intros H. injection H as _ <-. split; [lia | congruence].
Qed.

Lemma search_quote_iff (text : str) :
  search QUOTE_BLOCK_PATTERN text <> None <->
  exists a b c, text = a ++ QUOTE_BEGIN ++ b ++ QUOTE_END ++ c.
Proof.
  split.
  - intros H. destruct (search QUOTE_BLOCK_PATTERN text)
      as [[[pre m] rest]|] eqn:E; [| now elim H].
    apply search_Some in E as (w & c & -> & Hw & _).
    apply quote_sem in Hw as (w1 & x & w2 & -> & _).
    exists pre, (w1 ++ x ++ w2), rest. now rewrite <- !app_assoc.
  - intros (a & b & c & ->).
    apply (search_found _ _ a (QUOTE_BEGIN ++ [] ++ b ++ [] ++ QUOTE_END) c
             [(Idx 1, b)]).
    + cbn [app]. now rewrite <- !app_assoc.
    + apply quote_sem. now exists [], b, [].
Qed.

Lemma search_bibitem_iff (text : str) :
  search BIBITEM_QUOTE_PATTERN text <> None <->
  exists a w b c,
    forallb isspace w = true
    /\ text = a ++ ITEM ++ w ++ QUOTE_BEGIN ++ b ++ QUOTE_END ++ c.
Proof.
  split.
  - intros H. destruct (search BIBITEM_QUOTE_PATTERN text)
      as [[[pre m] rest]|] eqn:E; [| now elim H].
    apply search_Some in E as (w & c & -> & Hw & _).
    apply bibitem_sem in Hw as (w0 & w1 & x & w2 & -> & H0 & _).
    exists pre, w0, (w1 ++ x ++ w2), rest. split; [assumption |].
    now rewrite <- !app_assoc.
  - intros (a & w & b & c & Hw & ->).
    apply (search_found _ _ a
             (ITEM ++ w ++ QUOTE_BEGIN ++ [] ++ b ++ [] ++ QUOTE_END) c
             [(Name "body", b); (Name "item", ITEM)]).
    + cbn [app]. now rewrite <- !app_assoc.
    + apply bibitem_sem. now exists w, [], b, [].
Qed.

(** ** The order of the table *)

Lemma table_entry (k r : str) :
  In (k, r) UNICODE_MATH_REPLACEMENTS ->
  exists c, k = [c] /\ is_key c = true /\ substitute c = r.
Proof.
  intros Hin. unfold UNICODE_MATH_REPLACEMENTS in Hin. cbn [In] in Hin.
  destruct Hin as [E | [E | [E | [E | [E | [E | []]]]]]];
    injection E as <- <-; eexists; repeat split.
Qed.

Lemma keyfree_no_key (k : char) (t : str) :
  is_key k = true -> keyfree t = true -> existsb (N.eqb k) t = false.
Proof.
  intros Hk. induction t as [|c t IH]; [reflexivity |].
  unfold keyfree. cbn [forallb existsb]. intros H.
  apply andb_true_iff in H as [Hc Ht]. apply negb_true_iff in Hc.
  rewrite (IH Ht), orb_false_r. apply N.eqb_neq. intros ->. congruence.
Qed.

Lemma unicode_fold_entries (l : list (str * str)) :
  (forall e, In e l -> In e UNICODE_MATH_REPLACEMENTS) ->
  forall acc, fold_left unicode_step l acc = fold_left char_step l acc.
Proof.
  induction l as [|[k r] l IH]; intros Hl acc; [reflexivity |].
  cbn [fold_left]. destruct (table_entry k r) as (c & -> & _);
    [apply Hl; now left |].
  destruct acc as [t n]. rewrite unicode_step_char. cbn [char_step fst snd].
  apply IH. intros e He. apply Hl. now right.
Qed.

Lemma char_fold_keyfree (l : list (str * str)) :
  (forall e, In e l -> In e UNICODE_MATH_REPLACEMENTS) ->
  forall t n, keyfree t = true -> fold_left char_step l (t, n) = (t, n).
Proof.
  induction l as [|[k r] l IH]; intros Hl t n Ht; [reflexivity |].
  cbn [fold_left]. destruct (table_entry k r) as (c & -> & Hc & _);
    [apply Hl; now left |].
  cbn [char_step fst snd].
  rewrite flat_map_subst1_id, occ_zero, Nat.add_0_r
    by now apply keyfree_no_key.
  apply IH; [| assumption]. intros e He. apply Hl. now right.
Qed.

Lemma char_fold_one_any (l : list (str * str)) :
  (forall e, In e l -> In e UNICODE_MATH_REPLACEMENTS) ->
  forall c n,
    fold_left char_step l ([c], n)
    = if existsb (fun '(k, _) => str_eqb k [c]) l
      then (substitute c, n + 1) else ([c], n).
Proof.
  induction l as [|[k r] l IH]; intros Hl c n; [reflexivity |].
  cbn [fold_left existsb].
  destruct (table_entry k r) as (x & -> & Hx & <-); [apply Hl; now left |].
  cbn [char_step fst snd flat_map filter str_eqb]. unfold subst1, occ.
  cbn [filter]. rewrite andb_true_r.
  assert (Hl' : forall e, In e l -> In e UNICODE_MATH_REPLACEMENTS)
    by (intros e He; apply Hl; now right).
  destruct (N.eqb_spec x c) as [-> | Hne].
  - cbn [orb app List.length]. rewrite app_nil_r.
    apply char_fold_keyfree; [assumption | apply substitute_keyfree].
  - cbn [orb app List.length]. rewrite Nat.add_0_r. now apply IH.
Qed.

Lemma existsb_perm {A : Type} (p : A -> bool) (l l' : list A) :
  Permutation l l' -> existsb p l = existsb p l'.
Proof.
  intros H. destruct (existsb p l') eqn:E.
  - apply existsb_exists in E as (x & Hx & Hp). apply existsb_exists.
    exists x. split; [| assumption].
    now apply (Permutation_in x (Permutation_sym H)).
  - apply not_true_iff_false. intros E'.
    apply existsb_exists in E' as (x & Hx & Hp).
    rewrite (proj2 (existsb_exists p l')) in E; [discriminate |].
    exists x. split; [| assumption]. now apply (Permutation_in x H).
Qed.

(** The loop gives the same document and count whatever the order in which
    the entries of the table are visited. *)
Lemma unicode_fold_perm (l : list (str * str)) (text : str) :
  Permutation l UNICODE_MATH_REPLACEMENTS ->
  fold_left unicode_step l (text, 0)
  = (flat_map substitute text, List.length (filter is_key text)).
Proof.
  intros Hp.
  assert (Hl : forall e, In e l -> In e UNICODE_MATH_REPLACEMENTS)
    by (intros e He; now apply (Permutation_in e Hp)).
  rewrite (unicode_fold_entries l Hl).
  induction text as [|c text IH].
  - now apply char_fold_keyfree.
  - change (c :: text) with ([c] ++ text) at 1.
    change 0 with (0 + 0) at 1.
    rewrite char_fold_app, IH, (char_fold_one_any l Hl).
    rewrite (existsb_perm _ l UNICODE_MATH_REPLACEMENTS Hp).
    fold (is_key c). cbn [flat_map filter].
    destruct (is_key c) eqn:E; cbn [fst snd List.length]; [reflexivity |].
    now rewrite (substitute_nonkey c E).
Qed.

Lemma flat_map_substitute_length_le (s : str) :
  List.length (flat_map substitute s)
  <= List.length s + 11 * List.length (filter is_key s).
Proof.
  induction s as [|c s IH]; [reflexivity |].
  cbn [flat_map filter]. rewrite length_app.
  destruct (is_key c) eqn:E.
  - cbn [List.length].
    assert (List.length (substitute c) <= 12)
      by (key_cases E; cbn; lia).
    lia.
  - rewrite (substitute_nonkey c E). cbn [List.length]. lia.
Qed.

(** ** Documents in which a pattern matches nowhere *)

Lemma search_quote_none (s : str) :
  search QUOTE_BLOCK_PATTERN s = None <-> no_quote_block s.
Proof.
  unfold no_quote_block. split.
  - intros H a b c E. apply (proj2 (search_quote_iff s)); [| exact H].
    now exists a, b, c.
  - intros H. destruct (search QUOTE_BLOCK_PATTERN s) eqn:E; [| reflexivity].
    assert (Hs : search QUOTE_BLOCK_PATTERN s <> None) by now rewrite E.
    apply search_quote_iff in Hs as (a & b & c & Es). now elim (H a b c).
Qed.

Lemma search_bibitem_none (s : str) :
  search BIBITEM_QUOTE_PATTERN s = None <-> no_item_quote s.
Proof.
  unfold no_item_quote. split.
  - intros H a w b c Hw E. apply (proj2 (search_bibitem_iff s)); [| exact H].
    now exists a, w, b, c.
  - intros H. destruct (search BIBITEM_QUOTE_PATTERN s) eqn:E; [| reflexivity].
    assert (Hs : search BIBITEM_QUOTE_PATTERN s <> None) by now rewrite E.
    apply search_bibitem_iff in Hs as (a & w & b & c & Hw & Es).
    now elim (H a w b c).
Qed.

Lemma search_longtable_none (s : str) :
  search LONGTABLE_PATTERN s = None <-> no_longtable s.
Proof.
  rewrite search_None. unfold no_longtable. split.
  - intros H a cols body c Hc E.
    apply (H a (table cols body) c
             [(Name "body", body); (Name "cols", cols)]); [exact E |].
    apply longtable_sem. now exists cols, body.
  - intros H pre w rest c E Hw.
    apply longtable_sem in Hw as (cols & body & -> & Hc & _).
    now apply (H pre cols body rest Hc).
Qed.

(** ** Trimmed strings *)





(** ** Page-fragment wrappers with the whitespace of their content *)




(** * The claims *)

(** ** C1: the worked example of the specification *)

(** C1 (the code at the example): on [\begin{quote}Hello R\end{quote}], with
    R the double-struck R (U+211D), [cleanup_latex] returns the report
    1, 1, 0, 0 and the document [Hello \\mathbb{R}] with TWO backslashes, which
    is not the [Hello \mathbb{R}] the example promises. *)
Theorem cleanup_latex_example :
  cleanup_latex example_input
  = Ok (of_string "Hello \\mathbb{R}", mkCleanupStats 1 1 0 0)
  /\ of_string "Hello \\mathbb{R}" <> of_string "Hello \mathbb{R}".
Proof. split; [vm_compute; reflexivity | discriminate]. Qed.

(** ** C8: the orchestrator is the composition of the four passes *)

(** C8: for every input, [cleanup_latex] returns (it raises nothing) the
    document obtained by threading the input through [remove_quote_blocks],
    [normalize_unicode_math], [simplify_longtables] and
    [normalize_bibliography_items] in that order, with a report made of the
    four counts; equal inputs give equal results. *)
Theorem cleanup_latex_is_pipeline (text : str) :
  (exists d1 quotes d2 unicode d3 tables d4 items,
      remove_quote_blocks text = Ok (d1, quotes)
      /\ normalize_unicode_math d1 = Ok (d2, unicode)
      /\ simplify_longtables d2 = Ok (d3, tables)
      /\ normalize_bibliography_items d3 = Ok (d4, items)
      /\ cleanup_latex text
         = Ok (d4, mkCleanupStats quotes unicode tables items))
  /\ cleanup_latex text = pipeline text
  /\ (forall text', text' = text -> cleanup_latex text' = cleanup_latex text).
Proof.
  destruct (remove_quote_blocks_total text) as (d1 & quotes & H1).
  destruct (normalize_unicode_math_total d1) as (d2 & unicode & H2).
  destruct (simplify_longtables_total d2) as (d3 & tables & H3).
  destruct (normalize_bibliography_items_total d3) as (d4 & items & H4).
  assert (E : cleanup_latex text
              = Ok (d4, mkCleanupStats quotes unicode tables items)).
  { unfold cleanup_latex. rewrite H1. cbn [bind]. rewrite H2. cbn [bind].
    rewrite H3. cbn [bind]. rewrite H4. reflexivity. }
  split; [| split].
  - exists d1, quotes, d2, unicode, d3, tables, d4, items. auto.
  - rewrite E. unfold pipeline. now rewrite H1, H2, H3, H4.
  - now intros text' ->.
Qed.

(** ** C9: the unicode pass substitutes character by character *)

(** C9: [normalize_unicode_math] returns the concatenation, over the
    characters of the input in order, of the replacement of each table key and
    of every other character itself, with the number of key characters of the
    input as count; every replacement starts with two backslashes, and the key
    U+01AE maps to the five characters of [\\tau]. *)
Theorem normalize_unicode_math_homomorphism (text : str) :
  normalize_unicode_math text
  = Ok (flat_map substitute text, List.length (filter is_key text))
  /\ (forall c, is_key c = false -> substitute c = [c])
  /\ (forall k r, In (k, r) UNICODE_MATH_REPLACEMENTS ->
        exists c r', k = [c] /\ is_key c = true /\ substitute c = r
                     /\ r = backslash :: backslash :: r'
                     /\ hd backslash r' <> backslash)
  /\ List.length UNICODE_MATH_REPLACEMENTS = 6
  /\ substitute 0x1AE%N = of_string "\\tau"
  /\ List.length (substitute 0x1AE%N) = 5
  /\ substitute 0x1AE%N <> of_string "\tau".
Proof.
  split; [apply normalize_unicode_math_subst |].
  split; [exact substitute_nonkey |].
  split; [| repeat split; discriminate].
  intros k r H. unfold UNICODE_MATH_REPLACEMENTS in H. cbn [In] in H.
  destruct H as [H | [H | [H | [H | [H | [H | []]]]]]];
    injection H as <- <-; eexists; eexists;
    (split; [reflexivity |]); (split; [reflexivity |]);
    (split; [reflexivity |]); (split; [reflexivity | discriminate]).
Qed.

(** ** C7: the passes are total, and an unclosed begin-marker is left alone *)

(** C7: each of the four passes returns a document and a count on every
    input (none raises).  When the pattern of a pass matches nowhere in the
    document, the pass returns the document itself with count 0, whatever
    begin-markers without end-marker and whatever other unmatched markers
    the document holds: [remove_quote_blocks] when no part of the document
    reads [\begin{quote} ... \end{quote}]; [normalize_bibliography_items]
    when no part reads [\item], whitespace only, [\begin{quote} ...
    \end{quote}]; [simplify_longtables] when no part reads
    [\begin{longtable}{cols} ... \end{longtable}] with a [cols] free of "}";
    the unicode pass when the document holds no table key. *)
Theorem passes_total (text : str) :
  (exists out n, remove_quote_blocks text = Ok (out, n))
  /\ (exists out n, normalize_unicode_math text = Ok (out, n))
  /\ (exists out n, simplify_longtables text = Ok (out, n))
  /\ (exists out n, normalize_bibliography_items text = Ok (out, n))
  /\ (no_quote_block text -> remove_quote_blocks text = Ok (text, 0))
  /\ (no_item_quote text -> normalize_bibliography_items text = Ok (text, 0))
  /\ (no_longtable text -> simplify_longtables text = Ok (text, 0))
  /\ (forallb (fun c => negb (is_key c)) text = true ->
      normalize_unicode_math text = Ok (text, 0)).
Proof.
  split; [apply remove_quote_blocks_total |].
  split; [apply normalize_unicode_math_total |].
  split; [apply simplify_longtables_total |].
  split; [apply normalize_bibliography_items_total |].
  split; [| split; [| split]].
  - intros H. apply subn_search_none; [exact quote_consuming |].
    now apply search_quote_none.
  - intros H. apply subn_search_none; [exact bibitem_consuming |].
    now apply search_bibitem_none.
  - intros H. apply simplify_longtables_search_none.
    now apply search_longtable_none.
  - intros H. rewrite normalize_unicode_math_subst.
    rewrite flat_map_substitute_id by assumption.
    replace (filter is_key text) with (@nil N); [reflexivity |].
    clear -H. induction text as [|c t IH]; [reflexivity |].
    cbn [forallb filter] in *. apply andb_true_iff in H as [Hc Ht].
    apply negb_true_iff in Hc. rewrite Hc. now apply IH.
Qed.

Lemma passes_total_witness :
  (no_quote_block unclosed_quote
   /\ remove_quote_blocks unclosed_quote = Ok (unclosed_quote, 0))
  /\ (no_item_quote unclosed_item
      /\ normalize_bibliography_items unclosed_item = Ok (unclosed_item, 0))
  /\ (no_longtable unclosed_table
      /\ simplify_longtables unclosed_table = Ok (unclosed_table, 0))
  /\ (forallb (fun c => negb (is_key c)) unclosed_table = true
      /\ normalize_unicode_math unclosed_table = Ok (unclosed_table, 0)).
Proof.
  assert (Hq : no_quote_block unclosed_quote)
    by (apply search_quote_none; reflexivity).
  assert (Hi : no_item_quote unclosed_item)
    by (apply search_bibitem_none; reflexivity).
  assert (Hl : no_longtable unclosed_table)
    by (apply search_longtable_none; reflexivity).
  split; [split; [exact Hq |] | split; [split; [exact Hi |] |
    split; [split; [exact Hl |] | split; [reflexivity |]]]].
  - destruct (passes_total unclosed_quote) as (_ & _ & _ & _ & H & _).
    exact (H Hq).
  - destruct (passes_total unclosed_item) as (_ & _ & _ & _ & _ & H & _).
    exact (H Hi).
  - destruct (passes_total unclosed_table) as (_ & _ & _ & _ & _ & _ & H & _).
    exact (H Hl).
  - destruct (passes_total unclosed_table) as (_ & _ & _ & _ & _ & _ & _ & H).
    exact (H eq_refl).
Defined.

(** ** C10: a count of zero means an unchanged document *)

(** C10: for each of the four passes, a returned count of 0 comes with the
    input itself as document; and whenever the callback of
    [simplify_longtables] leaves its counter as it was, the text it returns
    for the table is the matched text, character for character. *)
Theorem zero_count_identity (text out : str) :
  (remove_quote_blocks text = Ok (out, 0) -> out = text)
  /\ (normalize_unicode_math text = Ok (out, 0) -> out = text)
  /\ (simplify_longtables text = Ok (out, 0) -> out = text)
  /\ (normalize_bibliography_items text = Ok (out, 0) -> out = text)
  /\ (forall simplified w c new,
        sem LONGTABLE_PATTERN [] w c ->
        longtable_replacer simplified (mkMatch LONGTABLE_PATTERN w c)
        = Ok (new, simplified) ->
        new = w).
Proof.
  split; [apply subn_zero; exact quote_consuming |].
  split; [apply normalize_unicode_math_zero |].
  split; [apply simplify_longtables_zero |].
  split; [apply subn_zero; exact bibitem_consuming |].
  intros simplified w c new Hw.
  apply (longtable_replacer_match simplified) in Hw
    as (cols & body & nb & -> & _ & _ & ->).
  destruct (str_eqb nb body) eqn:Eb.
  - apply str_eqb_eq in Eb as ->. intros H. now injection H as <-.
  - intros H. injection H as _ H. lia.
Qed.

Lemma zero_count_identity_witness :
  simplify_longtables plain_table_example = Ok (plain_table_example, 0)
  /\ plain_table_example = plain_table_example.
Proof.
  split; [vm_compute; reflexivity |].
  destruct (zero_count_identity plain_table_example plain_table_example)
    as (_ & _ & H & _).
  apply H. vm_compute. reflexivity.
Defined.

(** ** C5 and C4: removing quotation wrappers *)

(** C5 fails as stated: the document [\beg\begin{quote}\end{quote}in{quote}]
    holds one begin-marker and one end-marker, which form one wrapper (with
    empty content) between the texts [\beg] and [in{quote}];
    [remove_quote_blocks] counts 1 and returns [\begin{quote}], a document
    that still contains the begin-marker. *)
Lemma count_accuracy_counterexample :
  splice_example = quoted [(of_string "\beg", [])] (of_string "in{quote}")
  /\ str_count splice_example QUOTE_BEGIN = 1
  /\ str_count splice_example QUOTE_END = 1
  /\ remove_quote_blocks splice_example = Ok (QUOTE_BEGIN, 1)
  /\ contains QUOTE_BEGIN QUOTE_BEGIN = true.
Proof. repeat split; vm_compute; reflexivity. Qed.

(** C5 (amended): take a document made of k quotation wrappers and the texts
    around them, in which no text and no wrapper content contains a begin- or
    end-marker (the wrappers are not nested, are closed, and there is no stray
    marker), and in which no text before a wrapper and no trimmed content ends
    inside a marker.  Then [remove_quote_blocks] returns the count k and the
    document with each wrapper replaced by its trimmed content, and this
    document has no occurrence of either marker. *)
Theorem count_accuracy (l : list (str * str)) (tail : str) :
  pieces_free QUOTE_BEGIN l tail -> pieces_free QUOTE_END l tail ->
  joints_free QUOTE_BEGIN l -> joints_free QUOTE_END l ->
  remove_quote_blocks (quoted l tail) = Ok (unquoted l tail, List.length l)
  /\ contains QUOTE_BEGIN (unquoted l tail) = false
  /\ contains QUOTE_END (unquoted l tail) = false.
Proof.
  intros Hb He Jb Je. split; [| split].
  - apply pieces_free_quoted; [assumption |].
    destruct He as [He _]. clear -He.
    induction l as [|[pre x] l IH]; constructor.
    + apply Forall_cons_iff in He as [[_ H] _]. exact H.
    + apply Forall_cons_iff in He as [_ He]. now apply IH.
  - now apply unquoted_free.
  - now apply unquoted_free.
Qed.

Lemma count_accuracy_witness :
  remove_quote_blocks (quoted two_quotes two_quotes_tail)
  = Ok (of_string "Intro \\ first quote and \emph{then} second the end.", 2)
  /\ contains QUOTE_BEGIN (unquoted two_quotes two_quotes_tail) = false
  /\ contains QUOTE_END (unquoted two_quotes two_quotes_tail) = false.
Proof.
  apply (count_accuracy two_quotes two_quotes_tail).
  - split; [| reflexivity].
    repeat (apply Forall_cons; [split; reflexivity |]). apply Forall_nil.
  - split; [| reflexivity].
    repeat (apply Forall_cons; [split; reflexivity |]). apply Forall_nil.
  - repeat (apply Forall_cons; [split; reflexivity |]). apply Forall_nil.
  - repeat (apply Forall_cons; [split; reflexivity |]). apply Forall_nil.
Defined.




(** ** C2: the bibliography pass after the quotation pass *)




(** ** C6: long tables are counted when a wrapper was removed *)



(** ** C3: the unicode pass on a document with each key once *)

(** C3 fails as stated.  The first key of the table is U+01AE, not the tau
    (U+03C4) the claim lists: a tau is left in place.  And a replacement
    string need not be present exactly once: the document below holds each of
    the six keys once, the count is 6 and no key is left, but
    [\\mathbb{R}] is present twice in the output (and so is
    [\mathbb{R}]), because the input already held it. *)
Lemma unicode_completeness_counterexample :
  map fst UNICODE_MATH_REPLACEMENTS
  = [[0x1AE]; [0x1D4B5]; [0x2124]; [0x211D]; [0x211A]; [0x2115]]%N
  /\ normalize_unicode_math [0x3C4%N] = Ok ([0x3C4%N], 0)
  /\ map (fun k => str_count keys_and_macro k)
         (map fst UNICODE_MATH_REPLACEMENTS) = [1; 1; 1; 1; 1; 1]
  /\ (exists out,
        normalize_unicode_math keys_and_macro = Ok (out, 6)
        /\ forallb (fun c => negb (is_key c)) out = true
        /\ str_count out (of_string "\\mathbb{R}") = 2
        /\ str_count out (of_string "\mathbb{R}") = 2).
Proof.
  split; [reflexivity |]. split; [reflexivity |]. split; [reflexivity |].
  eexists. split; [vm_compute; reflexivity |].
  split; [vm_compute; reflexivity |]. split; vm_compute; reflexivity.
Qed.

(** C3 (amended): the table has exactly six entries, each keyed by one
    character, the keys being distinct and five of them the script Z and the
    double-struck Z, R, Q, N; for any document containing each of the six
    keys exactly once, [normalize_unicode_math] returns the count 6 and a
    document with no occurrence of any key, in which the replacement string
    of each key occurs exactly once more than in the input (exactly once when
    the input does not hold it already). *)
Theorem unicode_completeness (text : str) :
  (forall c, is_key c = true -> occ c text = 1) ->
  List.length UNICODE_MATH_REPLACEMENTS = 6
  /\ NoDup (map fst UNICODE_MATH_REPLACEMENTS)
  /\ (forall k r, In (k, r) UNICODE_MATH_REPLACEMENTS ->
        exists c, k = [c] /\ is_key c = true /\ substitute c = r)
  /\ forallb is_key [0x1D4B5; 0x2124; 0x211D; 0x211A; 0x2115]%N = true
  /\ exists out,
       normalize_unicode_math text = Ok (out, 6)
       /\ (forall c, is_key c = true -> occ c out = 0)
       /\ (forall c, is_key c = true ->
             occurrences (substitute c) out
             = occurrences (substitute c) text + 1)
       /\ (forall c, is_key c = true ->
             occurrences (substitute c) text = 0 ->
             occurrences (substitute c) out = 1).
Proof.
  intros H. split; [reflexivity |]. split.
  { unfold UNICODE_MATH_REPLACEMENTS. cbn [map fst].
    repeat (constructor; [cbn [In]; intuition discriminate |]). constructor. }
  split.
  { intros k r Hin. unfold UNICODE_MATH_REPLACEMENTS in Hin. cbn [In] in Hin.
    destruct Hin as [E | [E | [E | [E | [E | [E | []]]]]]];
      injection E as <- <-; eexists; repeat split. }
  split; [reflexivity |].
  exists (flat_map substitute text).
  assert (Hocc : forall c, is_key c = true ->
                   occurrences (substitute c) (flat_map substitute text)
                   = occurrences (substitute c) text + 1).
  { intros c Hc. rewrite (occurrences_substitute c text Hc). now rewrite H. }
  split; [| split; [| split]].
  - rewrite normalize_unicode_math_subst, filter_is_key_sum.
    now rewrite !H.
  - intros c Hc. now apply occ_substitute_zero.
  - exact Hocc.
  - intros c Hc H0. now rewrite Hocc, H0.
Qed.

Lemma unicode_completeness_witness :
  exists out,
    normalize_unicode_math six_keys = Ok (out, 6)
    /\ (forall c, is_key c = true -> occ c out = 0)
    /\ (forall c, is_key c = true ->
          occurrences (substitute c) out
          = occurrences (substitute c) six_keys + 1)
    /\ (forall c, is_key c = true ->
          occurrences (substitute c) six_keys = 0 ->
          occurrences (substitute c) out = 1).
Proof.
  apply (unicode_completeness six_keys).
  intros c Hc. apply is_key_cases in Hc.
  destruct Hc as [-> | [-> | [-> | [-> | [-> | ->]]]]]; reflexivity.
Defined.

(** * Further properties of the passes *)

(** X1: [remove_quote_blocks] returns on every text; each removed wrapper
    shortens the document by at least the 24 characters of the two markers;
    the document is unchanged exactly when the count is 0; and the count is
    positive exactly when the text holds a begin-marker with an end-marker
    somewhere after it. *)
Theorem remove_quote_blocks_effect (text : str) :
  exists out n,
    remove_quote_blocks text = Ok (out, n)
    /\ List.length out + 24 * n <= List.length text
    /\ (n = 0 <-> out = text)
    /\ (0 < n <->
        exists a b c, text = a ++ QUOTE_BEGIN ++ b ++ QUOTE_END ++ c).
Proof.
  destruct (remove_quote_blocks_total text) as (out & n & H).
  exists out, n. split; [exact H |].
  pose proof (remove_quote_blocks_length text out n H) as Hlen.
  split; [exact Hlen |]. split.
  - split.
    + intros ->. rewrite remove_quote_blocks_eq in H.
      now apply (subn_zero _ _ _ _ quote_consuming H).
    + intros ->. lia.
  - rewrite <- search_quote_iff. rewrite remove_quote_blocks_eq in H.
    exact (subn_fires _ _ _ _ _ quote_consuming H).
Qed.

(** X2: [remove_quote_blocks] only deletes: its output is the input with
    some characters left out, in the same order, and every character that is
    a key of the replacement table is kept. *)
Theorem remove_quote_blocks_only_deletes (text : str) :
  exists out n,
    remove_quote_blocks text = Ok (out, n)
    /\ subseq out text
    /\ filter is_key out = filter is_key text.
Proof.
  destruct (remove_quote_blocks_total text) as (out & n & H).
  exists out, n. split; [exact H |]. split.
  - exact (remove_quote_blocks_subseq text out n H).
  - exact (remove_quote_blocks_keys text out n H).
Qed.

(** X3: [normalize_bibliography_items] returns on every text; each collapsed
    item shortens the document by at least 23 characters (the two markers,
    less the one space it writes); the document is unchanged exactly when the
    count is 0; and the count is positive exactly when the text holds
    [\item], whitespace only, a begin-marker and, somewhere after it, an
    end-marker. *)
Theorem normalize_bibliography_items_effect (text : str) :
  exists out n,
    normalize_bibliography_items text = Ok (out, n)
    /\ List.length out + 23 * n <= List.length text
    /\ (n = 0 <-> out = text)
    /\ (0 < n <->
        exists a w b c,
          forallb isspace w = true
          /\ text = a ++ ITEM ++ w ++ QUOTE_BEGIN ++ b ++ QUOTE_END ++ c).
Proof.
  destruct (normalize_bibliography_items_total text) as (out & n & H).
  exists out, n. split; [exact H |].
  pose proof (normalize_bibliography_items_length text out n H) as Hlen.
  split; [exact Hlen |]. split.
  - split.
    + intros ->. rewrite normalize_bibliography_items_eq in H.
      now apply (subn_zero _ _ _ _ bibitem_consuming H).
    + intros ->. lia.
  - rewrite <- search_bibitem_iff.
    rewrite normalize_bibliography_items_eq in H.
    exact (subn_fires _ _ _ _ _ bibitem_consuming H).
Qed.

(** X4: [simplify_longtables] returns on every text and only deletes; each
    table it counts shortens the document by at least 34 characters (the
    markers, brackets and braces of one page-fragment wrapper); the document
    is unchanged exactly when the count is 0; a document free of table keys
    stays so. *)
Theorem simplify_longtables_effect (text : str) :
  exists out n,
    simplify_longtables text = Ok (out, n)
    /\ List.length out + 34 * n <= List.length text
    /\ (n = 0 <-> out = text)
    /\ subseq out text
    /\ (keyfree text = true -> keyfree out = true).
Proof.
  destruct (simplify_longtables_total text) as (out & n & H).
  exists out, n. split; [exact H |].
  pose proof (simplify_longtables_length text out n H) as Hlen.
  split; [exact Hlen |]. split; [| split].
  - split.
    + intros ->. now apply simplify_longtables_zero.
    + intros ->. lia.
  - exact (simplify_longtables_subseq text out n H).
  - exact (simplify_longtables_keyfree text out n H).
Qed.

(** X5: [_strip_minipages] returns on every body and only deletes; the body
    is returned unchanged exactly when no part of it reads
    [\begin{minipage}[pos]{width} ... \end{minipage}], and otherwise it is at
    least 34 characters shorter. *)
Theorem _strip_minipages_effect (body : str) :
  exists out,
    _strip_minipages body = Ok out
    /\ subseq out body
    /\ (out = body <-> no_minipage body)
    /\ (out <> body -> List.length out + 34 <= List.length body).
Proof.
  exists (stripped body). split; [apply stripped_eq |].
  split; [apply stripped_subseq |].
  destruct (stripped_changed body) as (n & Hn & [Hi1 Hi2]).
  destruct (subn_fires _ _ _ _ _ minipage_consuming Hn) as [Hf1 Hf2].
  rewrite <- search_minipage_none. split.
  - split.
    + intros E. apply (proj2 (str_eqb_eq _ _)) in E.
      destruct (search MINIPAGE_PATTERN body) as [found|] eqn:Es;
        [| reflexivity].
      assert (Hn0 : 0 < n) by (apply Hf2; discriminate).
      specialize (Hi2 Hn0). congruence.
    + intros Es. apply str_eqb_eq.
      destruct (str_eqb (stripped body) body) eqn:E; [reflexivity |].
      specialize (Hi1 eq_refl). specialize (Hf1 Hi1). now elim Hf1.
  - intros Hne. pose proof (stripped_length body) as Hl.
    destruct (str_eqb (stripped body) body) eqn:E; [| lia].
    apply str_eqb_eq in E. now elim Hne.
Qed.

(** X6: [normalize_unicode_math] makes the document at least 4 characters
    longer for each replacement; the document is unchanged exactly when the
    count is 0; the output holds no key of the table; and running the pass
    again on its output changes nothing and counts 0. *)
Theorem normalize_unicode_math_effect (text : str) :
  exists out n,
    normalize_unicode_math text = Ok (out, n)
    /\ List.length text + 4 * n <= List.length out
    /\ (n = 0 <-> out = text)
    /\ keyfree out = true
    /\ normalize_unicode_math out = Ok (out, 0).
Proof.
  exists (flat_map substitute text), (List.length (filter is_key text)).
  split; [apply normalize_unicode_math_subst |].
  pose proof (flat_map_substitute_length text) as Hlen.
  split; [exact Hlen |]. split; [| split].
  - split.
    + intros H. apply flat_map_substitute_id. now apply filter_is_key_nil.
    + intros E. rewrite E in Hlen. lia.
  - apply flat_map_substitute_keyfree.
  - rewrite normalize_unicode_math_subst.
    pose proof (flat_map_substitute_keyfree text) as Hk.
    rewrite (flat_map_substitute_id (flat_map substitute text) Hk).
    now rewrite (keyfree_filter _ Hk).
Qed.

(** X7: the result of [normalize_unicode_math] does not depend on the order
    in which the entries of the replacement table are visited: the loop run
    over any reordering of the table returns the same document and count. *)
Theorem unicode_order_irrelevant (l : list (str * str)) (text : str) :
  Permutation l UNICODE_MATH_REPLACEMENTS ->
  Ok (fold_left unicode_step l (text, 0)) = normalize_unicode_math text.
Proof.
  intros Hp. rewrite normalize_unicode_math_subst.
  now rewrite (unicode_fold_perm l text Hp).
Qed.

Lemma unicode_order_irrelevant_witness :
  Ok (fold_left unicode_step (rev UNICODE_MATH_REPLACEMENTS) (six_keys, 0))
  = normalize_unicode_math six_keys.
Proof.
  apply (unicode_order_irrelevant (rev UNICODE_MATH_REPLACEMENTS) six_keys).
  apply Permutation_sym, Permutation_rev.
Defined.

(** X8: whatever the input, the document [cleanup_latex] returns holds no
    key of the replacement table, and the unicode count of its report is the
    number of key characters of the raw input: the quotation pass, which runs
    first, drops none of them. *)
Theorem cleanup_latex_keys (text : str) :
  exists out stats,
    cleanup_latex text = Ok (out, stats)
    /\ keyfree out = true
    /\ unicode_replacements stats = List.length (filter is_key text).
Proof.
  destruct (remove_quote_blocks_total text) as (d1 & quotes & H1).
  destruct (simplify_longtables_total (flat_map substitute d1))
    as (d3 & tables & H3).
  destruct (normalize_bibliography_items_total d3) as (d4 & items & H4).
  exists d4, (mkCleanupStats quotes (List.length (filter is_key d1)) tables
                             items).
  split; [| split].
  - unfold cleanup_latex. rewrite H1. cbn [bind].
    rewrite normalize_unicode_math_subst. cbn [bind]. rewrite H3.
    cbn [bind]. now rewrite H4.
  - apply (normalize_bibliography_items_keyfree d3 d4 items H4).
    apply (simplify_longtables_keyfree _ d3 tables H3).
    apply flat_map_substitute_keyfree.
  - cbn [unicode_replacements].
    now rewrite (remove_quote_blocks_keys text d1 quotes H1).
Qed.

(** X9: on a document that contains neither [\begin{quote}] nor
    [\begin{longtable}], [cleanup_latex] does nothing but the unicode
    substitution: the three pattern passes find nothing, before and after
    it. *)
Theorem cleanup_latex_without_markers (text : str) :
  contains QUOTE_BEGIN text = false ->
  contains LONGTABLE_BEGIN text = false ->
  cleanup_latex text
  = Ok (flat_map substitute text,
        mkCleanupStats 0 (List.length (filter is_key text)) 0 0).
Proof.
  intros Hq Hl. unfold cleanup_latex.
  rewrite remove_quote_blocks_eq.
  rewrite subn_search_none;
    [| exact quote_consuming | now apply search_no_begin].
  cbn [bind]. rewrite normalize_unicode_math_subst. cbn [bind].
  rewrite simplify_longtables_search_none.
  2:{ apply search_longtable_unterminated, never_closed_free.
      apply contains_substitute_free; [right; now left | exact Hl]. }
  cbn [bind]. rewrite normalize_bibliography_items_eq.
  rewrite subn_search_none; [reflexivity | exact bibitem_consuming |].
  apply search_bibitem_unterminated, never_closed_free.
  apply contains_substitute_free; [now left | exact Hq].
Qed.

Lemma cleanup_latex_without_markers_witness :
  cleanup_latex plain_paragraph
  = Ok (flat_map substitute plain_paragraph,
        mkCleanupStats 0 (List.length (filter is_key plain_paragraph)) 0 0).
Proof.
  apply (cleanup_latex_without_markers plain_paragraph); reflexivity.
Defined.

(** X10: when the document [remove_quote_blocks] returns contains neither
    [\begin{quote}] nor [\begin{longtable}], the rest of [cleanup_latex] is
    the unicode substitution alone: the long-table and bibliography counts of
    the report are 0, whatever stood behind the list items of the input. *)
Theorem cleanup_latex_after_quotes (text d1 : str) (quotes : nat) :
  remove_quote_blocks text = Ok (d1, quotes) ->
  contains QUOTE_BEGIN d1 = false ->
  contains LONGTABLE_BEGIN d1 = false ->
  cleanup_latex text
  = Ok (flat_map substitute d1,
        mkCleanupStats quotes (List.length (filter is_key text)) 0 0).
Proof.
  intros H1 Hq Hl. unfold cleanup_latex. rewrite H1. cbn [bind].
  rewrite normalize_unicode_math_subst. cbn [bind].
  rewrite simplify_longtables_search_none.
  2:{ apply search_longtable_unterminated, never_closed_free.
      apply contains_substitute_free; [right; now left | exact Hl]. }
  cbn [bind]. rewrite normalize_bibliography_items_eq.
  rewrite subn_search_none; [| exact bibitem_consuming |].
  2:{ apply search_bibitem_unterminated, never_closed_free.
      apply contains_substitute_free; [now left | exact Hq]. }
  cbn [bind]. now rewrite (remove_quote_blocks_keys text d1 quotes H1).
Qed.

Lemma cleanup_latex_after_quotes_witness :
  cleanup_latex (itemized two_items two_items_tail)
  = Ok (flat_map substitute (unquoted (item_units two_items) two_items_tail),
        mkCleanupStats 2
          (List.length (filter is_key (itemized two_items two_items_tail)))
          0 0).
Proof.
  apply (cleanup_latex_after_quotes
           (itemized two_items two_items_tail)
           (unquoted (item_units two_items) two_items_tail) 2);
    vm_compute; reflexivity.
Defined.

(** X11: the length of the document [cleanup_latex] returns is accounted for
    by its report: every removed quotation wrapper takes away at least 24
    characters, every simplified long table at least 34, every collapsed
    bibliography item at least 23, and every replaced symbol adds at most
    11. *)
Theorem cleanup_latex_length (text : str) :
  exists out stats,
    cleanup_latex text = Ok (out, stats)
    /\ List.length out + 24 * removed_quote_blocks stats
       + 34 * simplified_longtables stats
       + 23 * normalized_bibliography_items stats
       <= List.length text + 11 * unicode_replacements stats.
Proof.
  destruct (remove_quote_blocks_total text) as (d1 & quotes & H1).
  destruct (simplify_longtables_total (flat_map substitute d1))
    as (d3 & tables & H3).
  destruct (normalize_bibliography_items_total d3) as (d4 & items & H4).
  exists d4, (mkCleanupStats quotes (List.length (filter is_key d1)) tables
                             items).
  split.
  - unfold cleanup_latex. rewrite H1. cbn [bind].
    rewrite normalize_unicode_math_subst. cbn [bind]. rewrite H3.
    cbn [bind]. now rewrite H4.
  - cbn [removed_quote_blocks simplified_longtables
         normalized_bibliography_items unicode_replacements].
    pose proof (remove_quote_blocks_length text d1 quotes H1).
    pose proof (flat_map_substitute_length_le d1).
    pose proof (simplify_longtables_length _ d3 tables H3).
    pose proof (normalize_bibliography_items_length d3 d4 items H4).
    lia.
Qed.
